(** * extractLightsVariance: variance-cut light extraction

    A shallow embedding of [extractLightsVariance.cpp]: the recursive region
    partitioner ([splitRecursive], [medianVarianceCut]), the JSON formatter
    ([outputJSON]) and the driver ([main]).

    C++ [int] and [size_t] values are integers of [Z]; [double] values are the
    kernel's binary64 floats; what a function writes to a stream is the list
    of output operations it performs, in order, string literals spelled as in
    the C source (escapes such as [\n] included).  What the file takes from
    the headers it includes ([SummedAreaTable], [SummedAreaTableRegion],
    [Math], the merge and debug units, tinyexr, stb_image, libc) is a field
    of the class [Collaborators]; the program is written over any instance of
    it, and one instance is given to run the program on inputs. *)

From Stdlib Require Import ZArith List Bool Lia String Ascii PrimFloat Uint63.
Import ListNotations.

Set Warnings "-inexact-float".

Local Open Scope Z_scope.

(** ** Data *)

(** [uint] is 32 bits wide: converting an [int] to it wraps. *)
Definition to_uint (z : Z) : Z := z mod 2 ^ 32.

(** [size_t] is 64 bits wide; [a - b] on it wraps. *)
Definition size_t_sub (a b : Z) : Z := (a - b) mod 2 ^ 64.

(** The double-quote character, for the escaped quotes of the C literals. *)
Definition dq : string := String (ascii_of_nat 34) EmptyString.

(** [Vec3d] of [Math]. *)
Definition Vec3d : Type := (float * float * float)%type.

(** The members of [Light] that [outputJSON] reads.  [_w], [_h] and [_sum]
    are spelled [light_w], [light_h] and [light_sum] here, the region's
    members having the same names. *)
Record Light : Type := mkLight {
  _centroidPosition : float * float;
  light_w : float;
  light_h : float;
  _rAverage : float;
  _gAverage : float;
  _bAverage : float;
  _lumAverage : float;
  light_sum : float;
  _variance : float;
  _error : bool
}.

Definition LightVector : Type := list Light.

(** [struct Image]; the pixel buffer is the list of its values. *)
Record Image : Type := mkImage {
  img_width : Z;
  img_height : Z;
  img_data : list float;
  img_nc : Z
}.

(** One output operation on a stream: a [printf] call with its format and
    arguments, or one [operator<<] of an [ostream]. *)
Inductive PfArg : Type :=
| PfInt (z : Z)
| PfDouble (d : float)
| PfStr (s : string).

Inductive Out : Type :=
| Printf (fmt : string) (args : list PfArg)
| Os_str (s : string)
| Os_double (d : float)
| Os_float (f : float)
| Os_int (z : Z)
| Os_endl.

(** What a run of the program leaves behind. *)
Record Run : Type := mkRun {
  exit_code : Z;
  stdout : list Out;
  stderr : list Out
}.

(** The command line as [main] sees it through [getopt]: [argv], the
    successive results of [getopt] (the option character returned and
    [optarg]) up to its [-1], and the final [optind].  [getopt] returns a
    character of its option string, or ['?'] after writing a line of its own
    to the standard error ([opterr] is never cleared): [getopt_diagnostic]
    is that line, for the call that returned a character the [switch] has no
    case for. *)
Record Cmdline : Type := mkCmdline {
  argv : list string;
  getopt_results : list (ascii * string);
  optind : nat;
  getopt_diagnostic : list Out
}.

(** The option variables of [main]. *)
Record Options : Type := mkOptions {
  ratioLengthSizeMax : float;
  ratioAreaSizeMax : float;
  numLights : Z;
  ratioLuminanceLight : float;
  numCuts : Z;
  debug : bool
}.

(** [struct SatRegion] over a table type: the rectangle, the six cached
    moment sums that [printVariance] reads, and the table pointer. *)
Record SatRegionOf (Table : Type) : Type := mkSatRegion {
  _x : Z;
  _y : Z;
  _w : Z;
  _h : Z;
  _sum : float;
  _sum1 : float;
  _sum2 : float;
  _sum3 : float;
  _sum4 : float;
  _sum5 : float;
  _sat : Table
}.

Arguments mkSatRegion {Table}.
Arguments _x {Table}.
Arguments _y {Table}.
Arguments _w {Table}.
Arguments _h {Table}.
Arguments _sum {Table}.
Arguments _sum1 {Table}.
Arguments _sum2 {Table}.
Arguments _sum3 {Table}.
Arguments _sum4 {Table}.
Arguments _sum5 {Table}.
Arguments _sat {Table}.

(** ** Collaborators

    What the file takes from its headers and libraries. *)
Class Collaborators : Type := {
  (** [SummedAreaTable]: the table class, its [width()] and [height()]
      accessors, [createLum] and the sums it answers. *)
  SummedAreaTable : Type;
  table_width : SummedAreaTable -> Z;
  table_height : SummedAreaTable -> Z;
  createLum : list float -> Z -> Z -> Z -> SummedAreaTable;
  getSum : SummedAreaTable -> float;
  getMaxLum : SummedAreaTable -> float;
  getMinLum : SummedAreaTable -> float;
  (** [SummedAreaTableRegion]: [SatRegion::create], and [SatRegion::split_w]
      and [SatRegion::split_h], which fill the two children [A] and [B] of a
      region. *)
  create : Z -> Z -> Z -> Z -> SummedAreaTable -> SatRegionOf SummedAreaTable;
  split_w :
    SatRegionOf SummedAreaTable ->
    SatRegionOf SummedAreaTable * SatRegionOf SummedAreaTable;
  split_h :
    SatRegionOf SummedAreaTable ->
    SatRegionOf SummedAreaTable * SatRegionOf SummedAreaTable;
  (** [PI] of [Math], [sin] and [cos] of libm, [Vec3d::normalize] (the vector
      after the call and the length it returns), and the conversion of a
      [double] to [float]. *)
  PI : float;
  sin : float -> float;
  cos : float -> float;
  normalize : Vec3d -> Vec3d * float;
  float_of_double : float -> float;
  (** [LoadEXR] of tinyexr gives the error message, or the pixels with the
      width and height; [stbi_loadf] of stb_image, called with the number of
      components wanted, gives nothing, or the pixels with the width, the
      height and the number of components of the file. *)
  LoadEXR : string -> string + (list float * Z * Z);
  stbi_loadf : string -> Z -> option (list float * Z * Z * Z);
  (** [atoi] and [atof] of libc. *)
  atoi : string -> Z;
  atof : string -> float;
  (** The merge unit ([extractLightsMerge.cpp]): [createLightsFromRegions]
      gives the lights it appended to the empty vector; [mergeLights] gives
      [lights] and [mainLights] as they are after the call (the count it
      returns is never read).  [sortLights] is [std::sort], which orders by
      [Light::operator<]. *)
  createLightsFromRegions :
    list (SatRegionOf SummedAreaTable) -> list float -> float -> Z -> Z -> Z ->
    SummedAreaTable -> LightVector;
  sortLights : LightVector -> LightVector;
  mergeLights :
    LightVector -> Z -> Z -> float -> float -> float -> float ->
    LightVector * LightVector;
  (** The debug unit ([extractLightsVarianceDebug.cpp]): what
      [debugDrawLight] writes to the standard output. *)
  debugDrawLight :
    list (SatRegionOf SummedAreaTable) -> LightVector -> LightVector ->
    list float -> Z -> Z -> Z -> float -> float -> Z -> list Out
}.

(** [SatRegion] and [SatRegionVector] of the program. *)
Abbreviation SatRegion := (SatRegionOf SummedAreaTable).

Abbreviation SatRegionVector := (list (SatRegionOf SummedAreaTable)).

(** * The program *)

Section Program.

Context {X : Collaborators}.

(** ** [printVariance] *)

Fixpoint printVariance_from (i : Z) (regions : SatRegionVector) : list Out :=
  match regions with
  | [] => []
  | r :: rest =>
      Printf "region %d %d %d : %d %d\n"
        [PfInt i; PfInt (_x r); PfInt (_y r); PfInt (_w r); PfInt (_h r)]
      :: Printf "region %d : %f %f %f %f %f %f\n"
           [PfInt i; PfDouble (_sum r); PfDouble (_sum1 r); PfDouble (_sum2 r);
            PfDouble (_sum3 r); PfDouble (_sum4 r); PfDouble (_sum5 r)]
      :: printVariance_from (i + 1) rest
  end.

Definition printVariance (regions : SatRegionVector) : list Out :=
  printVariance_from 0 regions.

(** ** The partitioner *)

(** [splitRecursive(r, n, regions)]; the vector passed by reference is
    threaded through as state.  [n] is unsigned and [n - 1] is only taken
    past the [n == 0] test, so it never wraps. *)
Fixpoint splitRecursive (r : SatRegion) (n : nat) (regions : SatRegionVector)
  : SatRegionVector :=
  if (_w r <? 2) || (_h r <? 2) || Nat.eqb n 0 then regions ++ [r]
  else
    match n with
    | O => regions ++ [r]
    | S n1 =>
        let '(A, B) := if _w r >? _h r then split_w r else split_h r in
        let regions1 :=
          if (_h A >? 2) && (_w A >? 2) then splitRecursive A n1 regions
          else regions in
        if (_h B >? 2) && (_w B >? 2) then splitRecursive B n1 regions1
        else regions1
    end.

(** [medianVarianceCut(img, n, regions)]: the vector is cleared first, so the
    result does not depend on what it held. *)
Definition medianVarianceCut (img : SummedAreaTable) (n : nat) : SatRegionVector :=
  let r := create 0 0 (table_width img) (table_height img) img in
  splitRecursive r n [].

(** ** [outputJSON] *)

(** The [under hemisphere, we cull] test of the loop, [y >= 0.5]. *)
Definition culled (l : Light) : bool :=
  (0.5 <=? snd (_centroidPosition l))%float.

(** The direction computed for a light from its centroid. *)
Definition direction (l : Light) : Vec3d :=
  let x := fst (_centroidPosition l) in
  let y := snd (_centroidPosition l) in
  let phi := ((x * 2.0 * PI) - PI * 0.5)%float in
  let theta := ((1.0 - y) * PI)%float in
  let d : Vec3d :=
    ((sin theta * cos phi)%float, cos theta, (sin theta * sin phi)%float) in
  fst (normalize d).

(** The JSON object written for a light that is not culled. *)
Definition jsonRecord (l : Light) (luminanceSum : float) : list Out :=
  let x := fst (_centroidPosition l) in
  let y := snd (_centroidPosition l) in
  let w := light_w l in
  let h := light_h l in
  let '(d0, d1, d2) := direction l in
  let rCol := float_of_double (_rAverage l) in
  let gCol := float_of_double (_gAverage l) in
  let bCol := float_of_double (_bAverage l) in
  [ Os_str "{";
    Os_str (" " ++ dq ++ "direction" ++ dq ++ ": [");
    Os_double d0; Os_str ", "; Os_double d1; Os_str ", ";
    Os_double d2; Os_str "], ";
    Os_str (" " ++ dq ++ "luminosity" ++ dq ++ ": ");
    Os_double (_lumAverage l); Os_str ", ";
    Os_str (" " ++ dq ++ "color" ++ dq ++ ": [");
    Os_float rCol; Os_str ", "; Os_float gCol; Os_str ", ";
    Os_float bCol; Os_str "], ";
    Os_str (" " ++ dq ++ "area" ++ dq ++ ": {" ++ dq ++ "x" ++ dq ++ ":");
    Os_double x;
    Os_str (", " ++ dq ++ "y" ++ dq ++ ":"); Os_double y;
    Os_str (", " ++ dq ++ "w" ++ dq ++ ":"); Os_double w;
    Os_str (", " ++ dq ++ "h" ++ dq ++ ":"); Os_double h;
    Os_str "}, ";
    Os_str (" " ++ dq ++ "sum" ++ dq ++ ": ");
    Os_double (light_sum l); Os_str ", ";
    Os_str (" " ++ dq ++ "lum_ratio" ++ dq ++ ": ");
    Os_double (light_sum l / luminanceSum)%float; Os_str ", ";
    Os_str (" " ++ dq ++ "variance" ++ dq ++ ": ");
    Os_double (_variance l); Os_str ", ";
    Os_str (" " ++ dq ++ "error" ++ dq ++ ": ");
    Os_int (if _error l then 1 else 0); Os_str " ";
    Os_str " }"; Os_endl ].

(** The rest of the loop body once a light passed the cull: its record, then
    the comma when [i < numLightsMax - 1]. *)
Definition emitLight (l : Light) (i numLightsMax : Z) (luminanceSum : float)
  : list Out :=
  jsonRecord l luminanceSum
  ++ (if i <? size_t_sub numLightsMax 1 then [Os_str ","] else []).

(** The [for] loop of [outputJSON] from the iterator position [lights] and
    the counter [i]: [continue] goes to [++l] and leaves [i] as it is. *)
Fixpoint outputJSON_loop (lights : LightVector) (i numLightsMax : Z)
  (luminanceSum : float) : list Out :=
  match lights with
  | [] => []
  | l :: rest =>
      if i <? numLightsMax then
        if culled l then outputJSON_loop rest i numLightsMax luminanceSum
        else emitLight l i numLightsMax luminanceSum
             ++ outputJSON_loop rest (i + 1) numLightsMax luminanceSum
      else []
  end.

(** [outputJSON(lights, height, width, imageAreaSize, luminanceSum,
    numLights)].  [globalVariance] is computed and never read. *)
Definition outputJSON (lights : LightVector) (height width imageAreaSize : Z)
  (luminanceSum : float) (numLights : Z) : list Out :=
  let numLightsMax :=
    if numLights >? 0 then numLights else Z.of_nat (List.length lights) in
  [Os_str "["]
  ++ outputJSON_loop lights 0 numLightsMax luminanceSum
  ++ [Os_str "]"].

(** The number of JSON objects in an output: each one is opened by its own
    [std::cout << "{"]. *)
Definition isRecordOpen (o : Out) : bool :=
  match o with
  | Os_str s => String.eqb s "{"
  | _ => false
  end.

Definition countRecords (out : list Out) : nat :=
  List.length (filter isRecordOpen out).

(** ** Image loading *)

(** [load_image_exr(filename, image)]: the return code, what [printf] wrote,
    and the [image] passed by reference after the call. *)
Definition load_image_exr (filename : string) (image : Image)
  : Z * list Out * Image :=
  match LoadEXR filename with
  | inl err => (1, [Printf "%s" [PfStr err]], image)
  | inr (data, w, h) => (0, [], mkImage w h data 4)
  end.

(** [load_image_hdr(filename, image)]. *)
Definition load_image_hdr (filename : string) (image : Image) : Z * Image :=
  match stbi_loadf filename 3 with
  | None => (1, image)
  | Some (data, w, h, _) => (0, mkImage w h data 3)
  end.

(** ** [main] *)

(** [usage(name)]: the line written to [std::cerr]; the function returns 1. *)
Definition usage (name : string) : Run :=
  mkRun 1 []
    [ Os_str "Usage: "; Os_str name;
      Os_str (" [-a max_light_areas] [-l max_light_length] [-r ratioLight] "
              ++ "[-n numCuts] [-m lightsNum] [-d] file.hdr");
      Os_endl ].

(** The initial values of the option variables. *)
Definition defaultOptions : Options :=
  {| ratioLengthSizeMax := 0.08%float;
     ratioAreaSizeMax := 0.05%float;
     numLights := 1;
     ratioLuminanceLight := 0.5%float;
     numCuts := 8;
     debug := false |}.

(** One turn of the [switch] on the character [getopt] returned; [None] is
    the [default:] case, which leaves [main] through [usage]. *)
Definition setOption (c : ascii) (optarg : string) (o : Options)
  : option Options :=
  if Ascii.eqb c "a" then
    Some (mkOptions (ratioLengthSizeMax o) (atof optarg) (numLights o)
            (ratioLuminanceLight o) (numCuts o) (debug o))
  else if Ascii.eqb c "d" then
    Some (mkOptions (ratioLengthSizeMax o) (ratioAreaSizeMax o) (numLights o)
            (ratioLuminanceLight o) (numCuts o) true)
  else if Ascii.eqb c "l" then
    Some (mkOptions (atof optarg) (ratioAreaSizeMax o) (numLights o)
            (ratioLuminanceLight o) (numCuts o) (debug o))
  else if Ascii.eqb c "m" then
    Some (mkOptions (ratioLengthSizeMax o) (ratioAreaSizeMax o) (atoi optarg)
            (ratioLuminanceLight o) (numCuts o) (debug o))
  else if Ascii.eqb c "n" then
    Some (mkOptions (ratioLengthSizeMax o) (ratioAreaSizeMax o) (numLights o)
            (ratioLuminanceLight o) (atoi optarg) (debug o))
  else if Ascii.eqb c "r" then
    Some (mkOptions (ratioLengthSizeMax o) (ratioAreaSizeMax o) (numLights o)
            (float_of_double (atof optarg)) (numCuts o) (debug o))
  else None.

(** The [while ((c = getopt(...)) != -1)] loop. *)
Fixpoint parseOptions (results : list (ascii * string)) (o : Options)
  : option Options :=
  match results with
  | [] => Some o
  | (c, optarg) :: rest =>
      match setOption c optarg o with
      | Some o1 => parseOptions rest o1
      | None => None
      end
  end.

(** The [Image image;] of [main] before it is loaded. *)
Definition unloaded : Image := mkImage 0 0 [] 0.

(** The body of [main] once the image is loaded.  The value of the
    [lum_sat.sum(...)] call that follows [getSum] is discarded. *)
Definition extract (cl : Cmdline) (o : Options) (image : Image) : Run :=
  let width := img_width image in
  let height := img_height image in
  let nc := img_nc image in
  let imageAreaSize := to_uint (img_width image * img_height image) in
  let rgba := img_data image in
  let lum_sat := createLum rgba width height nc in
  let regions := medianVarianceCut lum_sat (Z.to_nat (to_uint (numCuts o))) in
  let out1 := printVariance regions in
  match regions with
  | [] =>
      mkRun 1 out1
        [ Os_str "Cannot cut "; Os_str (nth 1 (argv cl) EmptyString);
          Os_str " into light regions"; Os_endl ]
  | _ :: _ =>
      let luminanceSum := getSum lum_sat in
      let luminanceMaxLight := (ratioLuminanceLight o * luminanceSum)%float in
      let lights :=
        createLightsFromRegions regions rgba luminanceMaxLight width height nc
          lum_sat in
      let lights := sortLights lights in
      let areaSizeMax := ratioAreaSizeMax o in
      let degreeMerge := 35.0%float in
      let mergeAreaSize := areaSizeMax in
      let '(lights, mainLights) :=
        mergeLights lights width height mergeAreaSize (ratioLengthSizeMax o)
          luminanceMaxLight degreeMerge in
      let mainLights := rev (sortLights mainLights) in
      let out2 :=
        outputJSON mainLights (to_uint height) (to_uint width) imageAreaSize
          luminanceSum (numLights o) in
      let out3 :=
        if debug o then
          debugDrawLight regions lights mainLights rgba width height nc
            (getMaxLum lum_sat) (getMinLum lum_sat) (numLights o)
        else [] in
      mkRun 0 (out1 ++ out2 ++ out3) []
  end.

(** [main(argc, argv)].  The [default:] case is reached after [getopt] has
    written its diagnostic; the usage line follows it on the standard
    error. *)
Definition main (cl : Cmdline) : Run :=
  match parseOptions (getopt_results cl) defaultOptions with
  | None =>
      let u := usage (nth 0 (argv cl) EmptyString) in
      mkRun (exit_code u) (stdout u) (getopt_diagnostic cl ++ stderr u)
  | Some o =>
      match nth_error (argv cl) (optind cl) with
      | Some file =>
          let '(ret, out0, image) := load_image_exr file unloaded in
          if negb (ret =? 0) then
            mkRun 1 out0
              [ Os_str "Cannot open "; Os_str (nth 1 (argv cl) EmptyString);
                Os_str " image file"; Os_endl ]
          else
            let run := extract cl o image in
            mkRun (exit_code run) (out0 ++ stdout run) (stderr run)
      | None => usage (nth 0 (argv cl) EmptyString)
      end
  end.

(** The two guarded recursive calls that follow a split into [(A, B)]. *)
Definition descend (AB : SatRegion * SatRegion) (n : nat)
  (regions : SatRegionVector) : SatRegionVector :=
  let regions1 :=
    if (_h (fst AB) >? 2) && (_w (fst AB) >? 2)
    then splitRecursive (fst AB) n regions else regions in
  if (_h (snd AB) >? 2) && (_w (snd AB) >? 2)
  then splitRecursive (snd AB) n regions1 else regions1.

(** ** Reference points for the formatter *)

(** The lights that pass the cull, in order. *)
Definition kept (lights : LightVector) : LightVector :=
  filter (fun l => negb (culled l)) lights.

(** The value of [numLightsMax] in [outputJSON]. *)
Definition lightsCap (lights : LightVector) (numLights : Z) : Z :=
  if numLights >? 0 then numLights else Z.of_nat (List.length lights).

(** The lights [outputJSON] writes a record for. *)
Definition emittedLights (lights : LightVector) (numLights : Z) : LightVector :=
  firstn (Z.to_nat (lightsCap lights numLights)) (kept lights).

(** Records written one after the other, the first with index [i]. *)
Fixpoint emitFrom (lights : LightVector) (i numLightsMax : Z)
  (luminanceSum : float) : list Out :=
  match lights with
  | [] => []
  | l :: rest =>
      emitLight l i numLightsMax luminanceSum
      ++ emitFrom rest (i + 1) numLightsMax luminanceSum
  end.

(** The loop as the specification words it: a culled light writes nothing
    but advances the index like an emitted one. *)
Fixpoint outputJSON_loop_counting (lights : LightVector) (i numLightsMax : Z)
  (luminanceSum : float) : list Out :=
  match lights with
  | [] => []
  | l :: rest =>
      if i <? numLightsMax then
        (if culled l then [] else emitLight l i numLightsMax luminanceSum)
        ++ outputJSON_loop_counting rest (i + 1) numLightsMax luminanceSum
      else []
  end.

Definition outputJSON_counting (lights : LightVector)
  (height width imageAreaSize : Z) (luminanceSum : float) (numLights : Z)
  : list Out :=
  [Os_str "["]
  ++ outputJSON_loop_counting lights 0 (lightsCap lights numLights) luminanceSum
  ++ [Os_str "]"].

(** The option characters the [switch] of [main] has a case for. *)
Definition knownFlag (c : ascii) : bool :=
  existsb (Ascii.eqb c) ["a"; "d"; "l"; "m"; "n"; "r"]%char.

(** The ways [main] is said to fail.  A usage error: [getopt] returned a
    character the [switch] has no case for, or no argument is left at
    [optind]. *)
Definition usageError (cl : Cmdline) : Prop :=
  (exists c optarg, In (c, optarg) (getopt_results cl) /\ knownFlag c = false)
  \/ (List.length (argv cl) <= optind cl)%nat.

(** The image named at [optind] is missing or does not decode. *)
Definition decodeFailure (cl : Cmdline) : Prop :=
  exists file err,
    nth_error (argv cl) (optind cl) = Some file /\ LoadEXR file = inl err.

(** The image loads and the partitioner leaves the vector empty. *)
Definition emptyPartition (cl : Cmdline) : Prop :=
  exists o file data w h,
    parseOptions (getopt_results cl) defaultOptions = Some o
    /\ nth_error (argv cl) (optind cl) = Some file
    /\ LoadEXR file = inr (data, w, h)
    /\ medianVarianceCut (createLum data w h 4)
         (Z.to_nat (to_uint (numCuts o))) = [].

(** The collaborators [X] with another HDR decoder in place of
    [stbi_loadf]. *)
Definition with_stbi_loadf
  (f : string -> Z -> option (list float * Z * Z * Z)) : Collaborators :=
  {| SummedAreaTable := SummedAreaTable;
     table_width := table_width;
     table_height := table_height;
     createLum := createLum;
     getSum := getSum;
     getMaxLum := getMaxLum;
     getMinLum := getMinLum;
     create := create;
     split_w := split_w;
     split_h := split_h;
     PI := PI;
     sin := sin;
     cos := cos;
     normalize := normalize;
     float_of_double := float_of_double;
     LoadEXR := LoadEXR;
     stbi_loadf := f;
     atoi := atoi;
     atof := atof;
     createLightsFromRegions := createLightsFromRegions;
     sortLights := sortLights;
     mergeLights := mergeLights;
     debugDrawLight := debugDrawLight |}.

End Program.

(** * A concrete setting

    The collaborators instantiated, so that the embedding runs on inputs. *)

(** ** The table of a flat image *)

Definition Z2float (z : Z) : float := PrimFloat.of_uint63 (Uint63.of_Z z).

(** Modelled from the spec: the summed-area table ([SummedAreaTable], not
    among the sources) of an image whose pixels all have luminance 1; only
    its size matters, every moment sum over a rectangle being its area. *)
Record FlatTable : Type := mkFlatTable {
  flat_width : Z;
  flat_height : Z
}.

(** Modelled from the spec: [SatRegion::create] ([SummedAreaTableRegion],
    not among the sources) stores the rectangle and caches its moment sums. *)
Definition flat_create (x y w h : Z) (t : FlatTable) : SatRegionOf FlatTable :=
  let s := Z2float (w * h) in
  mkSatRegion x y w h s s s s s s t.

(** Modelled from the spec: [SatRegion::split_w] ([SummedAreaTableRegion],
    not among the sources) cuts the width where the two children share the
    energy as evenly as possible, which on a flat image is the middle. *)
Definition flat_split_w (r : SatRegionOf FlatTable)
  : SatRegionOf FlatTable * SatRegionOf FlatTable :=
  let c := _w r / 2 in
  (flat_create (_x r) (_y r) c (_h r) (_sat r),
   flat_create (_x r + c) (_y r) (_w r - c) (_h r) (_sat r)).

(** Modelled from the spec: [SatRegion::split_h] ([SummedAreaTableRegion],
    not among the sources), the same cut across the height. *)
Definition flat_split_h (r : SatRegionOf FlatTable)
  : SatRegionOf FlatTable * SatRegionOf FlatTable :=
  let c := _h r / 2 in
  (flat_create (_x r) (_y r) (_w r) c (_sat r),
   flat_create (_x r) (_y r + c) (_w r) (_h r - c) (_sat r)).

(** Whether the pixel [(px, py)] lies in the rectangle of a region. *)
Definition covers {T : Type} (r : SatRegionOf T) (px py : Z) : bool :=
  (_x r <=? px) && (px <? _x r + _w r) && (_y r <=? py) && (py <? _y r + _h r).

(** ** Numeric collaborators *)

(** A value for [PI] of [Math]. *)
Definition PI_value : float := 3.141592653589793%float.

(** Partial sums of the sine and cosine series, standing for [sin] and
    [cos] of libm. *)
Fixpoint series (fuel : nat) (k term x2 acc : float) : float :=
  match fuel with
  | O => acc
  | S fuel1 =>
      let term1 := (- term * x2 / ((k + 1) * (k + 2)))%float in
      series fuel1 (k + 2)%float term1 x2 (acc + term1)%float
  end.

Definition sin_series (x : float) : float := series 14 1%float x (x * x)%float x.

Definition cos_series (x : float) : float :=
  series 14 0%float 1%float (x * x)%float 1%float.

(** Modelled from the spec: [Vec3d::normalize] ([Math], not among the
    sources) scales the vector to unit length and returns the length it
    had. *)
Definition normalize_sqrt (d : Vec3d) : Vec3d * float :=
  let '(a, b, c) := d in
  let norm := PrimFloat.sqrt (a * a + b * b + c * c)%float in
  if (0 <? norm)%float
  then (((a / norm)%float, (b / norm)%float, (c / norm)%float), norm)
  else (d, norm).

(** The conversion of a [double] to [float]: the significand rounded to 24
    bits (to nearest, ties to even); exact within the normal range of
    binary32. *)
Definition float32_round (x : float) : float :=
  let '(m, e) := PrimFloat.frshiftexp x in
  let m24 := (m * 16777216)%float in
  let r :=
    if (m24 <? 0)%float
    then (m24 - 4503599627370496 + 4503599627370496)%float
    else (m24 + 4503599627370496 - 4503599627370496)%float in
  PrimFloat.ldshiftexp (r / 16777216)%float e.

(** [atoi] on an optional sign followed by decimal digits. *)
Fixpoint digits (s : string) (acc : Z) : Z * string :=
  match s with
  | EmptyString => (acc, s)
  | String c rest =>
      let n := Z.of_nat (nat_of_ascii c) in
      if (48 <=? n) && (n <=? 57) then digits rest (10 * acc + (n - 48))
      else (acc, s)
  end.

Definition atoi_dec (s : string) : Z :=
  match s with
  | String "-" rest => - fst (digits rest 0)
  | _ => fst (digits s 0)
  end.

(** [atof] on unsigned decimals with an optional fraction. *)
Definition atof_dec (s : string) : float :=
  let '(ip, rest) := digits s 0 in
  match rest with
  | String "." frac =>
      let '(fp, rest1) := digits frac 0 in
      let k := Z.of_nat (String.length frac - String.length rest1) in
      (Z2float ip + Z2float fp / Z2float (10 ^ k))%float
  | _ => Z2float ip
  end.

(** ** Files and decoders *)

Inductive FileFormat : Type := RadianceHDR | OpenEXR.

(** A flat image of the given size, 4 values a pixel. *)
Definition flatPixels (w h : Z) : list float :=
  repeat 1%float (Z.to_nat (w * h * 4)).

(** The files of the examples: a format, pixels, width and height. *)
Definition disk (name : string) : option (FileFormat * (list float * Z * Z)) :=
  if String.eqb name "sky.exr" then Some (OpenEXR, (flatPixels 8 8, 8, 8))
  else if String.eqb name "small.exr" then Some (OpenEXR, (flatPixels 2 2, 2, 2))
  else if String.eqb name "sky.hdr" then Some (RadianceHDR, (flatPixels 8 8, 8, 8))
  else None.

(** Modelled from the spec: the EXR decoder (tinyexr, not among the
    sources) fails when the file is absent or in another format. *)
Definition disk_LoadEXR (name : string) : string + (list float * Z * Z) :=
  match disk name with
  | Some (OpenEXR, content) => inr content
  | Some (RadianceHDR, _) => inl "Invalid EXR header."%string
  | None => inl "Cannot read file."%string
  end.

(** Modelled from the spec: the HDR decoder (stb_image, not among the
    sources) fails when the file is absent or in another format. *)
Definition disk_stbi_loadf (name : string) (req_comp : Z)
  : option (list float * Z * Z * Z) :=
  match disk name with
  | Some (RadianceHDR, (data, w, h)) => Some (data, w, h, 3)
  | _ => None
  end.

(** ** Table, lights and merge *)

(** Modelled from the spec: [createLum] and [getSum], [getMaxLum],
    [getMinLum] of [SummedAreaTable], on a flat image. *)
Definition flat_createLum (rgba : list float) (w h nc : Z) : FlatTable :=
  mkFlatTable w h.

Definition flat_getSum (t : FlatTable) : float :=
  Z2float (flat_width t * flat_height t).

Definition flat_getLum (t : FlatTable) : float := 1%float.

(** Modelled from the spec: [createLightsFromRegions]
    ([extractLightsMerge.cpp], not among the sources) makes one light a
    region, its centroid the centre of the region in normalized
    coordinates. *)
Definition flat_light (w h : Z) (r : SatRegionOf FlatTable) : Light :=
  let W := Z2float w in
  let H := Z2float h in
  {| _centroidPosition :=
       (((Z2float (_x r) + Z2float (_w r) / 2) / W)%float,
        ((Z2float (_y r) + Z2float (_h r) / 2) / H)%float);
     light_w := (Z2float (_w r) / W)%float;
     light_h := (Z2float (_h r) / H)%float;
     _rAverage := 1%float;
     _gAverage := 1%float;
     _bAverage := 1%float;
     _lumAverage := 1%float;
     light_sum := _sum r;
     _variance := 0%float;
     _error := false |}.

Definition flat_createLightsFromRegions (regions : list (SatRegionOf FlatTable))
  (rgba : list float) (luminanceMaxLight : float) (w h nc : Z) (t : FlatTable)
  : LightVector :=
  map (flat_light w h) regions.

(** Modelled from the spec: lights order by ascending [sum]; an insertion
    sort stands for [std::sort]. *)
Fixpoint insertLight (l : Light) (ls : LightVector) : LightVector :=
  match ls with
  | [] => [l]
  | l1 :: rest =>
      if (light_sum l1 <? light_sum l)%float then l1 :: insertLight l rest
      else l :: ls
  end.

Definition sortBySum (ls : LightVector) : LightVector :=
  fold_right insertLight [] ls.

(** Modelled from the spec: [mergeLights] when no light is absorbed: every
    candidate becomes its own accepted light. *)
Definition merge_none (lights : LightVector) (w h : Z)
  (mergeAreaSize ratioLengthSizeMax luminanceMaxLight degreeMerge : float)
  : LightVector * LightVector :=
  (lights, lights).

(** A [debugDrawLight] that writes nothing to the standard output. *)
Definition debug_silent (regions : list (SatRegionOf FlatTable))
  (lights mainLights : LightVector) (rgba : list float) (w h nc : Z)
  (maxLum minLum : float) (numLights : Z) : list Out :=
  [].

(** The collaborators of the examples. *)
Definition sample : Collaborators :=
  {| SummedAreaTable := FlatTable;
     table_width := flat_width;
     table_height := flat_height;
     createLum := flat_createLum;
     getSum := flat_getSum;
     getMaxLum := flat_getLum;
     getMinLum := flat_getLum;
     create := flat_create;
     split_w := flat_split_w;
     split_h := flat_split_h;
     PI := PI_value;
     sin := sin_series;
     cos := cos_series;
     normalize := normalize_sqrt;
     float_of_double := float32_round;
     LoadEXR := disk_LoadEXR;
     stbi_loadf := disk_stbi_loadf;
     atoi := atoi_dec;
     atof := atof_dec;
     createLightsFromRegions := flat_createLightsFromRegions;
     sortLights := sortBySum;
     mergeLights := merge_none;
     debugDrawLight := debug_silent |}.

Definition flat_splitRecursive := @splitRecursive sample.

Definition flat_descend := @descend sample.

Definition flat_medianVarianceCut := @medianVarianceCut sample.

Definition sample_outputJSON := @outputJSON sample.

Definition sample_outputJSON_counting := @outputJSON_counting sample.

Definition sample_load_image_hdr := @load_image_hdr sample.

Definition sample_main : Cmdline -> Run := @main sample.

(** A light by its centroid, everything else fixed. *)
Definition lightAt (u v : float) : Light :=
  {| _centroidPosition := (u, v);
     light_w := 0.25%float;
     light_h := 0.25%float;
     _rAverage := 1%float;
     _gAverage := 1%float;
     _bAverage := 1%float;
     _lumAverage := 1%float;
     light_sum := 4%float;
     _variance := 0%float;
     _error := false |}.

(** The command lines of the examples. *)
Definition cmd_exr_n1 : Cmdline :=
  mkCmdline ["extractLights"; "-n"; "1"; "sky.exr"]%string
    [("n"%char, "1"%string)] 3 [].

Definition cmd_hdr : Cmdline :=
  mkCmdline ["extractLights"; "sky.hdr"]%string [] 1 [].

Definition cmd_small : Cmdline :=
  mkCmdline ["extractLights"; "small.exr"]%string [] 1 [].

Definition cmd_no_file : Cmdline :=
  mkCmdline ["extractLights"]%string [] 1 [].

Definition cmd_bad_flag : Cmdline :=
  mkCmdline ["extractLights"; "-z"; "sky.exr"]%string
    [("?"%char, EmptyString)] 2
    [Printf "%s: invalid option -- '%c'\n" [PfStr "extractLights"; PfStr "z"]].

(** The whole 8 by 8 flat image as a region, and a region twice as wide as
    high. *)
Definition square88 : SatRegionOf FlatTable :=
  flat_create 0 0 8 8 (mkFlatTable 8 8).

Definition wide84 : SatRegionOf FlatTable :=
  flat_create 0 0 8 4 (mkFlatTable 8 4).

(** * The rest of the file, and reference points for its properties *)






(** The number of [std::cout << ","] of an output. *)
Definition isComma (o : Out) : bool :=
  match o with
  | Os_str s => String.eqb s ","
  | _ => false
  end.

Definition countCommas (out : list Out) : nat :=
  List.length (filter isComma out).

(** The number of regions of a vector that cover a pixel. *)
Definition coverCount {T : Type} (px py : Z) (regions : list (SatRegionOf T))
  : nat :=
  List.length (filter (fun r => covers r px py) regions).

Definition b2n (b : bool) : nat := if b then 1%nat else 0%nat.

(** [A] and [B] tile [r] side by side: same rows, [A] to the left of [B],
    the widths adding up.  And one above the other: same columns, [A] above
    [B], the heights adding up.  A child may be empty. *)
Definition tiles_w {T : Type} (r A B : SatRegionOf T) : Prop :=
  _x A = _x r /\ _y A = _y r /\ _h A = _h r
  /\ _x B = _x r + _w A /\ _y B = _y r /\ _h B = _h r
  /\ 0 <= _w A /\ 0 <= _w B /\ _w A + _w B = _w r.

Definition tiles_h {T : Type} (r A B : SatRegionOf T) : Prop :=
  _x A = _x r /\ _y A = _y r /\ _w A = _w r
  /\ _x B = _x r /\ _y B = _y r + _h A /\ _w B = _w r
  /\ 0 <= _h A /\ 0 <= _h B /\ _h A + _h B = _h r.

(** No option character [c] among the results of [getopt]. *)
Definition absent (c : ascii) (results : list (ascii * string)) : Prop :=
  forall c1 optarg, In (c1, optarg) results -> c1 <> c.

Section Reference.

Context {X : Collaborators}.

(** The children [splitRecursive] leaves aside: those it neither calls
    itself on nor pushes, along the same recursion. *)
Fixpoint dropped (r : SatRegion) (n : nat) : SatRegionVector :=
  if (_w r <? 2) || (_h r <? 2) || Nat.eqb n 0 then []
  else
    match n with
    | O => []
    | S n1 =>
        let '(A, B) := if _w r >? _h r then split_w r else split_h r in
        (if (_h A >? 2) && (_w A >? 2) then dropped A n1 else [A])
        ++ (if (_h B >? 2) && (_w B >? 2) then dropped B n1 else [B])
    end.

(** What is asked of the split routines for the geometry of the partition:
    on a region at least 2 wide and 2 high, the children of [split_w] tile it
    side by side and those of [split_h] one above the other. *)
Definition splitsTile : Prop :=
  forall r : SatRegion,
    2 <= _w r -> 2 <= _h r ->
    tiles_w r (fst (split_w r)) (snd (split_w r))
    /\ tiles_h r (fst (split_h r)) (snd (split_h r)).

(** The split routines keep the dimension they do not cut. *)
Definition splitsKeepOtherSide : Prop :=
  forall r : SatRegion,
    _h (fst (split_w r)) = _h r /\ _h (snd (split_w r)) = _h r
    /\ _w (fst (split_h r)) = _w r /\ _w (snd (split_h r)) = _w r.

(** [create] stores the width and height it is given. *)
Definition createStoresSize : Prop :=
  forall x y w h t,
    _w (create x y w h t) = w /\ _h (create x y w h t) = h.

(** The whole-image region [medianVarianceCut] starts from. *)
Definition wholeImage (img : SummedAreaTable) : SatRegion :=
  create 0 0 (table_width img) (table_height img) img.

End Reference.

(** More command lines and lights for the examples. *)
Definition cmd_missing_n1 : Cmdline :=
  mkCmdline ["extractLights"; "-n"; "1"; "missing.exr"]%string
    [("n"%char, "1"%string)] 3 [].

Definition lightUp : Light := lightAt 0.25 0.25.

Definition lightDown : Light := lightAt 0.5 0.75.

(** * Properties *)

Section Properties.

Context {X : Collaborators}.

(** ** The partitioner *)

Lemma splitRecursive_leaf (r : SatRegion) (n : nat) (regions : SatRegionVector) :
  (_w r <? 2) || (_h r <? 2) || Nat.eqb n 0 = true ->
  splitRecursive r n regions = regions ++ [r].
Proof.
  intros H. destruct n as [|n]; simpl in *.
  - now rewrite H.
  - now rewrite H.
Qed.

Lemma splitRecursive_split (r : SatRegion) (n : nat) (regions : SatRegionVector) :
  (_w r <? 2) || (_h r <? 2) = false ->
  splitRecursive r (S n) regions
  = descend (if _w r >? _h r then split_w r else split_h r) n regions.
Proof.
  intros H. simpl. rewrite orb_false_r, H. unfold descend.
  destruct (_w r >? _h r);
    [destruct (split_w r) as [A B] | destruct (split_h r) as [A B]];
    reflexivity.
Qed.

Lemma descend_length (n bound : nat) (AB : SatRegion * SatRegion)
  (regions : SatRegionVector) :
  (forall r regions0,
     (List.length (splitRecursive r n regions0)
      <= List.length regions0 + bound)%nat) ->
  (List.length (descend AB n regions)
   <= List.length regions + bound + bound)%nat.
Proof.
  intros IH. unfold descend.
  destruct ((_h (fst AB) >? 2) && (_w (fst AB) >? 2));
    destruct ((_h (snd AB) >? 2) && (_w (snd AB) >? 2)).
  - etransitivity; [apply IH|]. apply Nat.add_le_mono_r, IH.
  - etransitivity; [apply IH|]. lia.
  - etransitivity; [apply IH|]. lia.
  - lia.
Qed.

Lemma splitRecursive_length (n : nat) :
  forall (r : SatRegion) (regions : SatRegionVector),
    (List.length (splitRecursive r n regions) <= List.length regions + 2 ^ n)%nat.
Proof.
  induction n as [|n IH]; intros r regions.
  - rewrite splitRecursive_leaf by (simpl; now rewrite orb_true_r).
    rewrite length_app. simpl. lia.
  - assert (P : (1 <= 2 ^ n)%nat) by (apply Nat.neq_0_lt_0, Nat.pow_nonzero; lia).
    rewrite Nat.pow_succ_r'.
    destruct ((_w r <? 2) || (_h r <? 2)) eqn:E.
    + rewrite splitRecursive_leaf by (now rewrite E).
      rewrite length_app. simpl. lia.
    + rewrite splitRecursive_split by exact E.
      etransitivity; [apply descend_length, IH|]. lia.
Qed.

(** C5: whatever the image and the depth budget [n], and whatever the split
    routines answer, [medianVarianceCut] fills the vector with at most [2^n]
    regions. *)
Theorem medianVarianceCut_at_most_pow2 (img : SummedAreaTable) (n : nat) :
  (List.length (medianVarianceCut img n) <= 2 ^ n)%nat.
Proof.
  unfold medianVarianceCut.
  pose proof (splitRecursive_length n
                (create 0 0 (table_width img) (table_height img) img) []) as H.
  simpl in H. exact H.
Qed.

(** C6, as the code has it: at a split step (width and height at least 2,
    budget not exhausted) the region is split by [split_w] when it is
    strictly wider than high, and by [split_h] otherwise; a square region is
    therefore split by [split_h]. *)
Theorem splitRecursive_axis (r : SatRegion) (n : nat) (regions : SatRegionVector) :
  2 <= _w r -> 2 <= _h r ->
  (_h r < _w r ->
   splitRecursive r (S n) regions = descend (split_w r) n regions)
  /\ (_w r <= _h r ->
      splitRecursive r (S n) regions = descend (split_h r) n regions).
Proof.
  intros Hw Hh.
  assert (E : (_w r <? 2) || (_h r <? 2) = false).
  { apply orb_false_iff. split; apply Z.ltb_ge; assumption. }
  split; intros H; rewrite (splitRecursive_split _ _ _ E).
  - replace (_w r >? _h r) with true; [reflexivity|].
    symmetry. apply Z.gtb_lt. exact H.
  - replace (_w r >? _h r) with false; [reflexivity|].
    symmetry. rewrite Z.gtb_ltb. apply Z.ltb_ge. exact H.
Qed.

(** A child that is not more than 2 wide and not more than 2 high is passed
    to no call and pushed nowhere: splitting a region whose two children are
    both that small leaves the vector as it was. *)
Lemma descend_small_children (AB : SatRegion * SatRegion) (n : nat)
  (regions : SatRegionVector) :
  (_h (fst AB) >? 2) && (_w (fst AB) >? 2) = false ->
  (_h (snd AB) >? 2) && (_w (snd AB) >? 2) = false ->
  descend AB n regions = regions.
Proof.
  intros HA HB. unfold descend. now rewrite HA, HB.
Qed.

(** With split routines that keep the width of the region they split by
    height, an image 2 pixels wide and at least as high yields no region at
    all as soon as the budget is positive. *)
Lemma medianVarianceCut_width_2 (img : SummedAreaTable) (n : nat) :
  (forall x y w h t, _w (create x y w h t) = w /\ _h (create x y w h t) = h) ->
  (forall r, _w (fst (split_h r)) = _w r /\ _w (snd (split_h r)) = _w r) ->
  table_width img = 2 -> 2 <= table_height img ->
  medianVarianceCut img (S n) = [].
Proof.
  intros Hc Hs Hw Hh. unfold medianVarianceCut.
  set (r := create 0 0 (table_width img) (table_height img) img).
  assert (Rw : _w r = 2) by (unfold r; rewrite (proj1 (Hc _ _ _ _ _)); exact Hw).
  assert (Rh : 2 <= _h r) by (unfold r; rewrite (proj2 (Hc _ _ _ _ _)); exact Hh).
  rewrite splitRecursive_split
    by (apply orb_false_iff; split; apply Z.ltb_ge; lia).
  replace (_w r >? _h r) with false
    by (symmetry; rewrite Z.gtb_ltb; apply Z.ltb_ge; lia).
  apply descend_small_children.
  - rewrite (proj1 (Hs r)), Rw. apply andb_false_r.
  - rewrite (proj2 (Hs r)), Rw. apply andb_false_r.
Qed.

(** ** The formatter *)

Lemma outputJSON_loop_emitFrom (luminanceSum : float) (numLightsMax : Z) :
  forall (lights : LightVector) (i : Z),
    outputJSON_loop lights i numLightsMax luminanceSum
    = emitFrom (firstn (Z.to_nat (numLightsMax - i)) (kept lights)) i
        numLightsMax luminanceSum.
Proof.
  induction lights as [|l rest IH]; intros i.
  - simpl. now rewrite firstn_nil.
  - simpl. destruct (i <? numLightsMax) eqn:E.
    + destruct (culled l); simpl.
      * apply IH.
      * apply Z.ltb_lt in E.
        replace (Z.to_nat (numLightsMax - i))
          with (S (Z.to_nat (numLightsMax - (i + 1)))) by lia.
        simpl. now rewrite IH.
    + apply Z.ltb_ge in E.
      replace (Z.to_nat (numLightsMax - i)) with O by lia.
      reflexivity.
Qed.

Lemma outputJSON_emitted (lights : LightVector) (height width imageAreaSize : Z)
  (luminanceSum : float) (numLights : Z) :
  outputJSON lights height width imageAreaSize luminanceSum numLights
  = [Os_str "["]
    ++ emitFrom (emittedLights lights numLights) 0
         (lightsCap lights numLights) luminanceSum
    ++ [Os_str "]"].
Proof.
  unfold outputJSON, emittedLights. fold (lightsCap lights numLights).
  now rewrite outputJSON_loop_emitFrom, Z.sub_0_r.
Qed.

Lemma countRecords_app (a b : list Out) :
  countRecords (a ++ b) = (countRecords a + countRecords b)%nat.
Proof.
  unfold countRecords. now rewrite filter_app, length_app.
Qed.

Lemma countRecords_emitLight (l : Light) (i numLightsMax : Z) (s : float) :
  countRecords (emitLight l i numLightsMax s) = 1%nat.
Proof.
  unfold emitLight. rewrite countRecords_app.
  unfold jsonRecord. destruct (direction l) as [[d0 d1] d2].
  destruct (i <? size_t_sub numLightsMax 1); reflexivity.
Qed.

Lemma countRecords_emitFrom (s : float) (numLightsMax : Z) :
  forall (lights : LightVector) (i : Z),
    countRecords (emitFrom lights i numLightsMax s) = List.length lights.
Proof.
  induction lights as [|l rest IH]; intros i; simpl.
  - reflexivity.
  - now rewrite countRecords_app, countRecords_emitLight, IH.
Qed.

Lemma countRecords_outputJSON (lights : LightVector)
  (height width imageAreaSize : Z) (luminanceSum : float) (numLights : Z) :
  countRecords
    (outputJSON lights height width imageAreaSize luminanceSum numLights)
  = List.length (emittedLights lights numLights).
Proof.
  rewrite outputJSON_emitted, !countRecords_app, countRecords_emitFrom.
  change (countRecords [Os_str "["]) with 0%nat.
  change (countRecords [Os_str "]"]) with 0%nat.
  now rewrite Nat.add_0_l, Nat.add_0_r.
Qed.

Lemma kept_length (lights : LightVector) :
  (List.length (kept lights) <= List.length lights)%nat.
Proof.
  apply filter_length_le.
Qed.

(** C4, as the code has it: a light whose [v] is at least 0.5 is left out,
    and it does not advance the emission index either ([continue] skips the
    [i++]): the records written are those of the first [numLightsMax] lights
    that pass the cull, the k-th of them written with index k, so the cap and
    the comma test count written records only. *)
Theorem outputJSON_culled_not_counted (lights : LightVector)
  (height width imageAreaSize : Z) (luminanceSum : float) (numLights : Z) :
  let numLightsMax :=
    if numLights >? 0 then numLights else Z.of_nat (List.length lights) in
  outputJSON lights height width imageAreaSize luminanceSum numLights
  = [Os_str "["]
    ++ emitFrom
         (firstn (Z.to_nat numLightsMax)
            (filter (fun l => negb (culled l)) lights))
         0 numLightsMax luminanceSum
    ++ [Os_str "]"].
Proof.
  intros numLightsMax. unfold outputJSON. fold numLightsMax.
  rewrite outputJSON_loop_emitFrom, Z.sub_0_r. reflexivity.
Qed.

(** ** The driver *)

Lemma setOption_known (c : ascii) (optarg : string) (o : Options) :
  setOption c optarg o = None <-> knownFlag c = false.
Proof.
  unfold setOption, knownFlag, existsb.
  destruct (Ascii.eqb c "a"); [simpl; split; discriminate|].
  destruct (Ascii.eqb c "d"); [simpl; split; discriminate|].
  destruct (Ascii.eqb c "l"); [simpl; split; discriminate|].
  destruct (Ascii.eqb c "m"); [simpl; split; discriminate|].
  destruct (Ascii.eqb c "n"); [simpl; split; discriminate|].
  destruct (Ascii.eqb c "r"); [simpl; split; discriminate|].
  simpl. split; reflexivity.
Qed.

Lemma parseOptions_None (results : list (ascii * string)) :
  forall o : Options,
    parseOptions results o = None
    <-> exists c optarg, In (c, optarg) results /\ knownFlag c = false.
Proof.
  induction results as [|[c a] rest IH]; intros o; simpl.
  - split; [discriminate|]. intros (c & a & [] & _).
  - destruct (setOption c a o) as [o1|] eqn:E.
    + rewrite IH. split.
      * intros (c' & a' & Hin & Hk). exists c', a'. auto.
      * intros (c' & a' & [Heq|Hin] & Hk).
        -- injection Heq as <- <-.
           apply setOption_known with (optarg := a) (o := o) in Hk.
           congruence.
        -- exists c', a'. auto.
    + split; [|reflexivity]. intros _. exists c, a. split; [now left|].
      now apply setOption_known in E.
Qed.

Lemma setOption_numLights (c : ascii) (optarg : string) (o o1 : Options) :
  c <> "m"%char -> setOption c optarg o = Some o1 -> numLights o1 = numLights o.
Proof.
  intros Hc. unfold setOption.
  destruct (Ascii.eqb c "a"); [intros [= <-]; reflexivity|].
  destruct (Ascii.eqb c "d"); [intros [= <-]; reflexivity|].
  destruct (Ascii.eqb c "l"); [intros [= <-]; reflexivity|].
  destruct (Ascii.eqb c "m") eqn:E; [apply Ascii.eqb_eq in E; contradiction|].
  destruct (Ascii.eqb c "n"); [intros [= <-]; reflexivity|].
  destruct (Ascii.eqb c "r"); [intros [= <-]; reflexivity|].
  discriminate.
Qed.

Lemma setOption_debug (c : ascii) (optarg : string) (o o1 : Options) :
  c <> "d"%char -> setOption c optarg o = Some o1 -> debug o1 = debug o.
Proof.
  intros Hc. unfold setOption.
  destruct (Ascii.eqb c "a"); [intros [= <-]; reflexivity|].
  destruct (Ascii.eqb c "d") eqn:E; [apply Ascii.eqb_eq in E; contradiction|].
  destruct (Ascii.eqb c "l"); [intros [= <-]; reflexivity|].
  destruct (Ascii.eqb c "m"); [intros [= <-]; reflexivity|].
  destruct (Ascii.eqb c "n"); [intros [= <-]; reflexivity|].
  destruct (Ascii.eqb c "r"); [intros [= <-]; reflexivity|].
  discriminate.
Qed.

Lemma parseOptions_numLights (results : list (ascii * string)) :
  forall o o1 : Options,
    (forall c optarg, In (c, optarg) results -> c <> "m"%char) ->
    parseOptions results o = Some o1 -> numLights o1 = numLights o.
Proof.
  induction results as [|[c a] rest IH]; intros o o1 Hm; simpl.
  - now intros [= <-].
  - destruct (setOption c a o) as [o2|] eqn:E; [|discriminate].
    intros H. apply IH in H; [|intros c' a' Hin; apply (Hm c' a'); now right].
    rewrite H. apply (setOption_numLights c a); [|exact E].
    apply (Hm c a). now left.
Qed.

Lemma parseOptions_debug (results : list (ascii * string)) :
  forall o o1 : Options,
    (forall c optarg, In (c, optarg) results -> c <> "d"%char) ->
    parseOptions results o = Some o1 -> debug o1 = debug o.
Proof.
  induction results as [|[c a] rest IH]; intros o o1 Hd; simpl.
  - now intros [= <-].
  - destruct (setOption c a o) as [o2|] eqn:E; [|discriminate].
    intros H. apply IH in H; [|intros c' a' Hin; apply (Hd c' a'); now right].
    rewrite H. apply (setOption_debug c a); [|exact E].
    apply (Hd c a). now left.
Qed.

(** What [extract] leaves on the two ways out of it. *)
Lemma extract_empty (cl : Cmdline) (o : Options) (image : Image) :
  medianVarianceCut
    (createLum (img_data image) (img_width image) (img_height image)
       (img_nc image))
    (Z.to_nat (to_uint (numCuts o))) = [] ->
  exit_code (extract cl o image) = 1.
Proof.
  intros E. unfold extract. now rewrite E.
Qed.

Lemma extract_nonempty (cl : Cmdline) (o : Options) (image : Image)
  (r : SatRegion) (regions : SatRegionVector) :
  medianVarianceCut
    (createLum (img_data image) (img_width image) (img_height image)
       (img_nc image))
    (Z.to_nat (to_uint (numCuts o))) = r :: regions ->
  exit_code (extract cl o image) = 0
  /\ exists mainLights dbg,
       stdout (extract cl o image)
       = printVariance (r :: regions)
         ++ outputJSON mainLights (to_uint (img_height image))
              (to_uint (img_width image))
              (to_uint (img_width image * img_height image))
              (getSum
                 (createLum (img_data image) (img_width image)
                    (img_height image) (img_nc image)))
              (numLights o)
         ++ dbg
       /\ (debug o = false -> dbg = []).
Proof.
  intros E. unfold extract. rewrite E.
  destruct (mergeLights _ _ _ _ _ _ _) as [lights mainLights].
  split; [reflexivity|]. simpl stdout.
  eexists. eexists. split; [reflexivity|].
  intros D. now rewrite D.
Qed.

(** The shape of a run that ends with exit code 0. *)
Lemma main_success (cl : Cmdline) :
  exit_code (main cl) = 0 ->
  exists o r regions mainLights height width imageAreaSize luminanceSum dbg,
    parseOptions (getopt_results cl) defaultOptions = Some o
    /\ stdout (main cl)
       = printVariance (r :: regions)
         ++ outputJSON mainLights height width imageAreaSize luminanceSum
              (numLights o)
         ++ dbg
    /\ (debug o = false -> dbg = []).
Proof.
  unfold main.
  destruct (parseOptions (getopt_results cl) defaultOptions) as [o|];
    [|discriminate].
  destruct (nth_error (argv cl) (optind cl)) as [file|]; [|discriminate].
  unfold load_image_exr.
  destruct (LoadEXR file) as [err|[[data w] h]]; [discriminate|].
  simpl negb. cbv iota. simpl exit_code. simpl stdout.
  set (image := mkImage w h data 4).
  destruct (medianVarianceCut
              (createLum (img_data image) (img_width image) (img_height image)
                 (img_nc image))
              (Z.to_nat (to_uint (numCuts o)))) as [|r regions] eqn:E.
  - rewrite (extract_empty cl o image E). discriminate.
  - intros _.
    destruct (extract_nonempty cl o image r regions E)
      as (_ & mainLights & dbg & Hout & Hdbg).
    exists o, r, regions, mainLights. do 4 eexists. exists dbg.
    split; [reflexivity|]. split; [exact Hout | exact Hdbg].
Qed.

(** C7: the exit code is 1 on a usage error (an option character without a
    case, or no file argument), when the image is missing or does not decode,
    and when the partitioner returns no region; in every other run it is 0. *)
Theorem main_exit_code (cl : Cmdline) :
  (usageError cl \/ decodeFailure cl \/ emptyPartition cl ->
   exit_code (main cl) = 1)
  /\ (~ (usageError cl \/ decodeFailure cl \/ emptyPartition cl) ->
      exit_code (main cl) = 0).
Proof.
  split.
  - intros [[Hflag|Hpos]
           |[(file & err & Hf & Herr)
            |(o & file & data & w & h & Ho & Hf & Hl & He)]];
      unfold main.
    + apply (parseOptions_None _ defaultOptions) in Hflag.
      now rewrite Hflag.
    + apply nth_error_None in Hpos. rewrite Hpos.
      now destruct (parseOptions (getopt_results cl) defaultOptions).
    + destruct (parseOptions (getopt_results cl) defaultOptions);
        [|reflexivity].
      rewrite Hf. unfold load_image_exr. now rewrite Herr.
    + rewrite Ho, Hf. unfold load_image_exr. rewrite Hl.
      simpl negb. cbv iota. simpl exit_code.
      now apply extract_empty.
  - intros Hno. unfold main.
    destruct (parseOptions (getopt_results cl) defaultOptions) as [o|] eqn:Ho.
    2:{ exfalso. apply Hno. left. left.
        now apply (parseOptions_None _ defaultOptions). }
    destruct (nth_error (argv cl) (optind cl)) as [file|] eqn:Hf.
    2:{ exfalso. apply Hno. left. right. now apply nth_error_None. }
    unfold load_image_exr.
    destruct (LoadEXR file) as [err|[[data w] h]] eqn:Hl.
    { exfalso. apply Hno. right. left. now exists file, err. }
    simpl negb. cbv iota. simpl exit_code.
    destruct (medianVarianceCut (createLum data w h 4)
                (Z.to_nat (to_uint (numCuts o)))) as [|r regions] eqn:E.
    { exfalso. apply Hno. right. right. now exists o, file, data, w, h. }
    now apply (extract_nonempty cl o (mkImage w h data 4) r regions).
Qed.

Lemma countRecords_printVariance_from (regions : SatRegionVector) :
  forall i : Z, countRecords (printVariance_from i regions) = 0%nat.
Proof.
  induction regions as [|r rest IH]; intros i; [reflexivity|].
  simpl. apply IH.
Qed.

(** A run that does not end with exit code 0 writes no record. *)
Lemma main_failure_no_record (cl : Cmdline) :
  exit_code (main cl) <> 0 -> countRecords (stdout (main cl)) = 0%nat.
Proof.
  unfold main.
  destruct (parseOptions (getopt_results cl) defaultOptions) as [o|];
    [|reflexivity].
  destruct (nth_error (argv cl) (optind cl)) as [file|]; [|reflexivity].
  unfold load_image_exr.
  destruct (LoadEXR file) as [err|[[data w] h]]; [reflexivity|].
  simpl negb. cbv iota. simpl exit_code. simpl stdout.
  set (image := mkImage w h data 4).
  destruct (medianVarianceCut
              (createLum (img_data image) (img_width image) (img_height image)
                 (img_nc image))
              (Z.to_nat (to_uint (numCuts o)))) as [|r regions] eqn:E.
  - intros _. unfold extract. rewrite E. reflexivity.
  - intros H. exfalso. apply H.
    now apply (extract_nonempty cl o image r regions).
Qed.

(** The HDR loader plays no part in a run: [main] is the same function
    whatever [stbi_loadf] is. *)
Lemma main_ignores_stbi_loadf
  (f : string -> Z -> option (list float * Z * Z * Z)) (cl : Cmdline) :
  @main (with_stbi_loadf f) cl = main cl.
Proof.
  reflexivity.
Qed.

Lemma emitFrom_In (l : Light) (numLightsMax : Z) (s : float) :
  forall (lights : LightVector) (i0 : Z),
    In l lights ->
    exists pre post i,
      emitFrom lights i0 numLightsMax s
      = pre ++ emitLight l i numLightsMax s ++ post.
Proof.
  induction lights as [|l0 rest IH]; intros i0 Hin; [contradiction|].
  destruct Hin as [->|Hin]; simpl.
  - exists [], (emitFrom rest (i0 + 1) numLightsMax s), i0. reflexivity.
  - destruct (IH (i0 + 1) Hin) as (pre & post & i & E).
    exists (emitLight l0 i0 numLightsMax s ++ pre), post, i.
    now rewrite E, app_assoc.
Qed.

(** C8: for every light a record is written for, with centroid [(u, v)], the
    three numbers of its [direction] array are the components of the
    normalized vector [(sin theta * cos phi, cos theta, sin theta * sin phi)]
    with [phi = u * 2 * PI - PI * 0.5] and [theta = (1 - v) * PI]. *)
Theorem outputJSON_direction (lights : LightVector)
  (height width imageAreaSize : Z) (luminanceSum : float) (numLights : Z)
  (l : Light) :
  In l (emittedLights lights numLights) ->
  let u := fst (_centroidPosition l) in
  let v := snd (_centroidPosition l) in
  let phi := (u * 2.0 * PI - PI * 0.5)%float in
  let theta := ((1.0 - v) * PI)%float in
  let n :=
    fst (normalize
           ((sin theta * cos phi)%float, cos theta, (sin theta * sin phi)%float)) in
  exists pre post,
    outputJSON lights height width imageAreaSize luminanceSum numLights
    = pre
      ++ [ Os_str "{";
           Os_str (" " ++ dq ++ "direction" ++ dq ++ ": [");
           Os_double (fst (fst n)); Os_str ", ";
           Os_double (snd (fst n)); Os_str ", ";
           Os_double (snd n); Os_str "], " ]
      ++ post.
Proof.
  intros Hin u v phi theta n.
  rewrite outputJSON_emitted.
  destruct (emitFrom_In l (lightsCap lights numLights) luminanceSum _ 0 Hin)
    as (pre & post & i & E).
  rewrite E. unfold emitLight, jsonRecord.
  change (direction l) with n.
  destruct n as [[d0 d1] d2]. simpl fst. simpl snd.
  exists ([Os_str "["] ++ pre). eexists.
  rewrite <- !app_assoc. simpl. reflexivity.
Qed.

End Properties.

(** * The code on concrete inputs *)

(** C1: on the flat 4 by 4 image with budget 2 the first cut gives two
    children 4 wide and 2 high; neither is descended into and neither is
    pushed, so the vector stays empty.  On the flat 8 by 5 image with budget
    2 only the two 4 by 3 children are pushed, and no returned region covers
    the pixels of rows 0 and 1. *)
Theorem medianVarianceCut_leaves_gaps :
  flat_medianVarianceCut (mkFlatTable 4 4) 2 = []
  /\ map (fun r => (_x r, _y r, _w r, _h r))
       (flat_medianVarianceCut (mkFlatTable 8 5) 2)
     = [(0, 2, 4, 3); (4, 2, 4, 3)]
  /\ existsb (fun r => covers r 0 0)
       (flat_medianVarianceCut (mkFlatTable 8 5) 2) = false.
Proof.
  repeat split; vm_compute; reflexivity.
Qed.

(** C2: the 2 by 2 image [small.exr] has positive area, yet the partitioner
    returns no region for it and the run ends with the [Cannot cut] line and
    exit code 1; the image of zero area, for its part, does get a region. *)
Theorem main_small_image_cannot_cut :
  flat_medianVarianceCut (mkFlatTable 2 2) 8 = []
  /\ sample_main cmd_small
     = mkRun 1 []
         [ Os_str "Cannot cut "; Os_str "small.exr";
           Os_str " into light regions"; Os_endl ]
  /\ List.length (flat_medianVarianceCut (mkFlatTable 0 0) 8) = 1%nat.
Proof.
  repeat split; vm_compute; reflexivity.
Qed.

(** C3: [sky.hdr] is a file the HDR loader decodes, and [main] hands it to
    the EXR loader all the same: the run ends with [Cannot open] and exit
    code 1. *)
Theorem main_hdr_input_not_decoded :
  fst (sample_load_image_hdr "sky.hdr" unloaded) = 0
  /\ sample_main cmd_hdr
     = mkRun 1 [Printf "%s" [PfStr "Invalid EXR header."]]
         [ Os_str "Cannot open "; Os_str "sky.hdr"; Os_str " image file";
           Os_endl ].
Proof.
  split; vm_compute; reflexivity.
Qed.

(** C4, as stated, fails: with a culled light before a light that passes
    and a cap of 1, the code writes the record of the second light, where a
    culled light that counted toward the index would have used the cap up. *)
Lemma outputJSON_culled_counts_refuted :
  sample_outputJSON [lightAt 0.25 0.75; lightAt 0.25 0.25] 8 8 64 64 1
  <> sample_outputJSON_counting [lightAt 0.25 0.75; lightAt 0.25 0.25]
       8 8 64 64 1.
Proof.
  intros H. apply (f_equal countRecords) in H. vm_compute in H. discriminate.
Qed.

(** The number of records on that input: one from the code, none from the
    loop in which a culled light counts. *)
Example outputJSON_culled_first_counts :
  countRecords
    (sample_outputJSON [lightAt 0.25 0.75; lightAt 0.25 0.25] 8 8 64 64 1)
  = 1%nat
  /\ countRecords
       (sample_outputJSON_counting [lightAt 0.25 0.75; lightAt 0.25 0.25]
          8 8 64 64 1)
     = 0%nat.
Proof.
  split; vm_compute; reflexivity.
Qed.

(** C6, as stated, fails: the square 8 by 8 region is not split along its
    width; the two regions returned are 8 wide and 4 high. *)
Lemma splitRecursive_tie_not_width :
  flat_splitRecursive square88 1 []
  <> flat_descend (flat_split_w square88) 0 [].
Proof.
  vm_compute. discriminate.
Qed.

(** The regions returned for the square region with budget 1. *)
Example splitRecursive_square88 :
  map (fun r => (_x r, _y r, _w r, _h r)) (flat_splitRecursive square88 1 [])
  = [(0, 0, 8, 4); (0, 4, 8, 4)].
Proof.
  vm_compute. reflexivity.
Qed.

(** C6 on two regions: the square 8 by 8 region is split by [split_h], the
    8 by 4 region by [split_w]. *)
Lemma splitRecursive_axis_witness :
  (2 <= _w square88 /\ 2 <= _h square88 /\ _w square88 <= _h square88
   /\ flat_splitRecursive square88 1 []
      = flat_descend (flat_split_h square88) 0 [])
  /\ (2 <= _w wide84 /\ 2 <= _h wide84 /\ _h wide84 < _w wide84
      /\ flat_splitRecursive wide84 1 []
         = flat_descend (flat_split_w wide84) 0 []).
Proof.
  assert (S1 : 2 <= _w square88) by (simpl; lia).
  assert (S2 : 2 <= _h square88) by (simpl; lia).
  assert (S3 : _w square88 <= _h square88) by (simpl; lia).
  assert (W1 : 2 <= _w wide84) by (simpl; lia).
  assert (W2 : 2 <= _h wide84) by (simpl; lia).
  assert (W3 : _h wide84 < _w wide84) by (simpl; lia).
  split.
  - refine (conj S1 (conj S2 (conj S3 _))).
    exact (proj2 (@splitRecursive_axis sample square88 0 [] S1 S2) S3).
  - refine (conj W1 (conj W2 (conj W3 _))).
    exact (proj1 (@splitRecursive_axis sample wide84 0 [] W1 W2) W3).
Defined.

(** C7 on five runs: no file argument, an unknown flag, a file that does
    not decode, an image the partitioner returns nothing for, and a run that
    goes through. *)
Lemma main_exit_code_witness :
  exit_code (sample_main cmd_no_file) = 1
  /\ exit_code (sample_main cmd_bad_flag) = 1
  /\ exit_code (sample_main cmd_hdr) = 1
  /\ exit_code (sample_main cmd_small) = 1
  /\ exit_code (sample_main cmd_exr_n1) = 0.
Proof.
  pose proof
    (@main_exit_code sample) as T.
  refine (conj _ (conj _ (conj _ (conj _ _)))).
  - apply (proj1 (T cmd_no_file)). left. right. simpl. lia.
  - apply (proj1 (T cmd_bad_flag)). left. left.
    exists "?"%char, EmptyString. split; [now left | reflexivity].
  - apply (proj1 (T cmd_hdr)). right. left.
    exists "sky.hdr"%string, "Invalid EXR header."%string.
    split; reflexivity.
  - apply (proj1 (T cmd_small)). right. right.
    exists defaultOptions, "small.exr"%string, (flatPixels 2 2), 2, 2.
    refine (conj eq_refl (conj eq_refl (conj eq_refl _))).
    vm_compute. reflexivity.
  - apply (proj2 (T cmd_exr_n1)).
    intros [[(c & a & Hin & Hk)|Hlen]
           |[(file & err & Hf & He)
            |(o & file & data & w & h & Ho & Hf & Hl & He)]].
    + simpl in Hin. destruct Hin as [E|[]]. injection E as <- <-.
      vm_compute in Hk. discriminate.
    + simpl in Hlen. lia.
    + simpl in Hf. injection Hf as <-. vm_compute in He. discriminate.
    + vm_compute in Ho. injection Ho as <-.
      simpl in Hf. injection Hf as <-.
      vm_compute in Hl. injection Hl as <- <- <-.
      vm_compute in He. discriminate.
Defined.

(** C8 on the light at [(0.25, 0.25)]: it is emitted, and its direction is
    written as computed from [phi = 0] and [theta = 0.75 * PI]. *)
Lemma outputJSON_direction_witness :
  In (lightAt 0.25 0.25) (emittedLights [lightAt 0.25 0.25] 1)
  /\ exists pre post,
       sample_outputJSON [lightAt 0.25 0.25] 8 8 64 64 1
       = pre
         ++ [ Os_str "{";
              Os_str (" " ++ dq ++ "direction" ++ dq ++ ": [");
              Os_double 0.70710678118654768; Os_str ", ";
              Os_double (-0.70710678118654746); Os_str ", ";
              Os_double 0; Os_str "], " ]
         ++ post.
Proof.
  assert (Hin : In (lightAt 0.25 0.25) (emittedLights [lightAt 0.25 0.25] 1))
    by (left; reflexivity).
  split; [exact Hin|].
  exact (@outputJSON_direction sample [lightAt 0.25 0.25] 8 8 64 64 1 (lightAt 0.25 0.25)
           Hin).
Defined.

(** The first five output operations of the run [extractLights -n 1 sky.exr],
    and its single record. *)
Example main_stdout_exr_n1 :
  firstn 5 (stdout (sample_main cmd_exr_n1))
  = [ Printf "region %d %d %d : %d %d\n"
        [PfInt 0; PfInt 0; PfInt 0; PfInt 8; PfInt 4];
      Printf "region %d : %f %f %f %f %f %f\n"
        [PfInt 0; PfDouble 32; PfDouble 32; PfDouble 32; PfDouble 32;
         PfDouble 32; PfDouble 32];
      Printf "region %d %d %d : %d %d\n"
        [PfInt 1; PfInt 0; PfInt 4; PfInt 8; PfInt 4];
      Printf "region %d : %f %f %f %f %f %f\n"
        [PfInt 1; PfDouble 32; PfDouble 32; PfDouble 32; PfDouble 32;
         PfDouble 32; PfDouble 32];
      Os_str "[" ]
  /\ countRecords (stdout (sample_main cmd_exr_n1)) = 1%nat.
Proof.
  split; vm_compute; reflexivity.
Qed.

(** * Further properties *)

Section Further.

Context {X : Collaborators}.

(** ** The partitioner *)

Lemma descend_app (n : nat) (AB : SatRegion * SatRegion)
  (regions : SatRegionVector) :
  (forall r regions0,
     splitRecursive r n regions0 = regions0 ++ splitRecursive r n []) ->
  descend AB n regions = regions ++ descend AB n [].
Proof.
  intros IH. unfold descend.
  destruct ((_h (fst AB) >? 2) && (_w (fst AB) >? 2));
    destruct ((_h (snd AB) >? 2) && (_w (snd AB) >? 2)).
  - rewrite (IH (snd AB) (splitRecursive (fst AB) n regions)).
    rewrite (IH (snd AB) (splitRecursive (fst AB) n [])).
    rewrite (IH (fst AB) regions). now rewrite app_assoc.
  - apply IH.
  - apply IH.
  - now rewrite app_nil_r.
Qed.

(** X1: [splitRecursive] only appends: the regions already in the vector
    stay in front, in order, and what is appended does not depend on them. *)
Theorem splitRecursive_appends (n : nat) :
  forall (r : SatRegion) (regions : SatRegionVector),
    splitRecursive r n regions = regions ++ splitRecursive r n [].
Proof.
  induction n as [|n IH]; intros r regions.
  - now rewrite !splitRecursive_leaf by (simpl; now rewrite orb_true_r).
  - destruct ((_w r <? 2) || (_h r <? 2)) eqn:E.
    + now rewrite !splitRecursive_leaf by (now rewrite E).
    + rewrite !splitRecursive_split by exact E.
      apply descend_app, IH.
Qed.

(** X2: with a budget of 0, or an image less than 2 pixels wide or high
    (the image of zero area included), [medianVarianceCut] returns the whole
    image as its single region. *)
Theorem medianVarianceCut_whole_image (img : SummedAreaTable) (n : nat) :
  n = O \/ _w (wholeImage img) < 2 \/ _h (wholeImage img) < 2 ->
  medianVarianceCut img n = [wholeImage img].
Proof.
  intros H. unfold medianVarianceCut. fold (wholeImage img).
  rewrite splitRecursive_leaf; [reflexivity|].
  destruct H as [->|[H|H]].
  - simpl. now rewrite orb_true_r.
  - apply Z.ltb_lt in H. now rewrite H.
  - apply Z.ltb_lt in H. rewrite H. now rewrite orb_true_r.
Qed.

Lemma splitRecursive_In (n : nat) :
  forall (r q : SatRegion) (regions : SatRegionVector),
    In q (splitRecursive r n regions) ->
    In q regions \/ q = r \/ (2 < _w q /\ 2 < _h q).
Proof.
  induction n as [|n IH]; intros r q regions Hin.
  - rewrite splitRecursive_leaf in Hin by (simpl; now rewrite orb_true_r).
    apply in_app_or in Hin. destruct Hin as [H|[H|[]]]; auto.
  - destruct ((_w r <? 2) || (_h r <? 2)) eqn:E.
    + rewrite splitRecursive_leaf in Hin by (now rewrite E).
      apply in_app_or in Hin. destruct Hin as [H|[H|[]]]; auto.
    + rewrite splitRecursive_split in Hin by exact E.
      unfold descend in Hin.
      set (AB := if _w r >? _h r then split_w r else split_h r) in Hin.
      assert (H1 : forall q0,
                 In q0 (if (_h (fst AB) >? 2) && (_w (fst AB) >? 2)
                        then splitRecursive (fst AB) n regions else regions) ->
                 In q0 regions \/ (2 < _w q0 /\ 2 < _h q0)).
      { intros q0 Hq.
        destruct ((_h (fst AB) >? 2) && (_w (fst AB) >? 2)) eqn:GA;
          [|now left].
        apply andb_true_iff in GA. destruct GA as [Gh Gw].
        apply Z.gtb_lt in Gh, Gw.
        destruct (IH _ _ _ Hq) as [H|[->|H]]; auto. }
      destruct ((_h (snd AB) >? 2) && (_w (snd AB) >? 2)) eqn:GB.
      * apply andb_true_iff in GB. destruct GB as [Gh Gw].
        apply Z.gtb_lt in Gh, Gw.
        destruct (IH _ _ _ Hin) as [H|[->|H]]; auto.
        destruct (H1 q H); auto.
      * destruct (H1 q Hin); auto.
Qed.

(** X3: a region [medianVarianceCut] returns is the whole image, or it is
    more than 2 pixels wide and more than 2 pixels high: below the whole
    image, no region with a side of 2 pixels or less is ever returned. *)
Theorem medianVarianceCut_regions_large (img : SummedAreaTable) (n : nat)
  (q : SatRegion) :
  In q (medianVarianceCut img n) ->
  q = wholeImage img \/ (2 < _w q /\ 2 < _h q).
Proof.
  intros Hin. unfold medianVarianceCut in Hin.
  destruct (splitRecursive_In n _ q [] Hin) as [[]|H]. exact H.
Qed.

(** X4: with split routines that keep the side they do not cut, an image at
    least 2 by 2 whose width or height is exactly 2 yields no region at all
    once the budget is positive. *)
Theorem medianVarianceCut_thin_image (img : SummedAreaTable) (n : nat) :
  createStoresSize -> splitsKeepOtherSide ->
  2 <= table_width img -> 2 <= table_height img ->
  table_width img = 2 \/ table_height img = 2 ->
  medianVarianceCut img (S n) = [].
Proof.
  intros Hc Hs Hw Hh Hthin. unfold medianVarianceCut.
  fold (wholeImage img). set (r := wholeImage img).
  assert (Rw : _w r = table_width img) by apply Hc.
  assert (Rh : _h r = table_height img) by apply Hc.
  destruct (Hs r) as (WA & WB & HA & HB).
  rewrite splitRecursive_split
    by (apply orb_false_iff; split; apply Z.ltb_ge; lia).
  destruct (_w r >? _h r) eqn:G.
  - apply Z.gtb_lt in G. apply descend_small_children.
    + rewrite WA. replace (_h r >? 2) with false; [reflexivity|].
      symmetry. rewrite Z.gtb_ltb. apply Z.ltb_ge. lia.
    + rewrite WB. replace (_h r >? 2) with false; [reflexivity|].
      symmetry. rewrite Z.gtb_ltb. apply Z.ltb_ge. lia.
  - rewrite Z.gtb_ltb in G. apply Z.ltb_ge in G.
    apply descend_small_children.
    + rewrite HA. replace (_w r >? 2) with false; [apply andb_false_r|].
      symmetry. rewrite Z.gtb_ltb. apply Z.ltb_ge. lia.
    + rewrite HB. replace (_w r >? 2) with false; [apply andb_false_r|].
      symmetry. rewrite Z.gtb_ltb. apply Z.ltb_ge. lia.
Qed.

(** ** Which pixels the regions cover *)

Lemma covers_iff {T : Type} (r : SatRegionOf T) (px py : Z) :
  covers r px py = true
  <-> (_x r <= px < _x r + _w r /\ _y r <= py < _y r + _h r).
Proof.
  unfold covers. rewrite !andb_true_iff, !Z.leb_le, !Z.ltb_lt. lia.
Qed.

Lemma b2n_covers_tiles {T : Type} (r A B : SatRegionOf T) (px py : Z) :
  tiles_w r A B \/ tiles_h r A B ->
  b2n (covers r px py) = (b2n (covers A px py) + b2n (covers B px py))%nat.
Proof.
  pose proof (covers_iff r px py) as Hr.
  pose proof (covers_iff A px py) as HA.
  pose proof (covers_iff B px py) as HB.
  intros [Ht|Ht]; unfold tiles_w, tiles_h in Ht;
    destruct (covers r px py), (covers A px py), (covers B px py);
    simpl; try reflexivity; exfalso;
    repeat match goal with
           | H : true = true <-> _ |- _ =>
               apply proj1 in H; specialize (H eq_refl)
           | H : false = true <-> _ |- _ =>
               apply proj2 in H;
               assert (~ _) by (intros K; discriminate (H K)); clear H
           end; lia.
Qed.

Lemma coverCount_app {T : Type} (px py : Z) (a b : list (SatRegionOf T)) :
  coverCount px py (a ++ b) = (coverCount px py a + coverCount px py b)%nat.
Proof.
  unfold coverCount. now rewrite filter_app, length_app.
Qed.

Lemma coverCount_one {T : Type} (px py : Z) (r : SatRegionOf T) :
  coverCount px py [r] = b2n (covers r px py).
Proof.
  unfold coverCount. simpl. now destruct (covers r px py).
Qed.

Lemma dropped_leaf (r : SatRegion) (n : nat) :
  (_w r <? 2) || (_h r <? 2) || Nat.eqb n 0 = true -> dropped r n = [].
Proof.
  intros H. destruct n as [|n]; simpl in *; now rewrite H.
Qed.

Lemma dropped_split (r : SatRegion) (n : nat) :
  (_w r <? 2) || (_h r <? 2) = false ->
  dropped r (S n)
  = (if (_h (fst (if _w r >? _h r then split_w r else split_h r)) >? 2)
        && (_w (fst (if _w r >? _h r then split_w r else split_h r)) >? 2)
     then dropped (fst (if _w r >? _h r then split_w r else split_h r)) n
     else [fst (if _w r >? _h r then split_w r else split_h r)])
    ++ (if (_h (snd (if _w r >? _h r then split_w r else split_h r)) >? 2)
           && (_w (snd (if _w r >? _h r then split_w r else split_h r)) >? 2)
        then dropped (snd (if _w r >? _h r then split_w r else split_h r)) n
        else [snd (if _w r >? _h r then split_w r else split_h r)]).
Proof.
  intros H. simpl. rewrite orb_false_r, H.
  destruct (_w r >? _h r);
    [destruct (split_w r) as [A B] | destruct (split_h r) as [A B]];
    reflexivity.
Qed.

(** X19: the regions of a split come out child by child: all the regions
    below the first child [A], then all those below the second child [B],
    each child contributing its own regions when it is more than 2 pixels
    wide and high, and nothing otherwise. *)
Theorem splitRecursive_children_in_order (r : SatRegion) (n : nat) :
  2 <= _w r -> 2 <= _h r ->
  let AB := if _w r >? _h r then split_w r else split_h r in
  splitRecursive r (S n) []
  = (if (_h (fst AB) >? 2) && (_w (fst AB) >? 2)
     then splitRecursive (fst AB) n [] else [])
    ++ (if (_h (snd AB) >? 2) && (_w (snd AB) >? 2)
        then splitRecursive (snd AB) n [] else []).
Proof.
  intros Hw Hh AB.
  assert (F : forall m (q : SatRegion) (regions : SatRegionVector),
             splitRecursive q m regions = regions ++ splitRecursive q m []).
  { induction m as [|m IH]; intros q regions.
    - now rewrite !splitRecursive_leaf by (simpl; now rewrite orb_true_r).
    - destruct ((_w q <? 2) || (_h q <? 2)) eqn:E.
      + now rewrite !splitRecursive_leaf by (now rewrite E).
      + rewrite !splitRecursive_split by exact E. apply descend_app, IH. }
  rewrite splitRecursive_split
    by (apply orb_false_iff; split; apply Z.ltb_ge; assumption).
  fold AB. unfold descend.
  destruct ((_h (fst AB) >? 2) && (_w (fst AB) >? 2));
    destruct ((_h (snd AB) >? 2) && (_w (snd AB) >? 2));
    try reflexivity.
  - apply F.
  - now rewrite app_nil_r.
Qed.

(** The accounting of one pixel along the recursion, with the vector the
    call started from. *)
Lemma coverCount_splitRecursive (px py : Z) :
  splitsTile ->
  forall (n : nat) (r : SatRegion) (regions : SatRegionVector),
    (coverCount px py (splitRecursive r n regions)
     + coverCount px py (dropped r n)
     = coverCount px py regions + b2n (covers r px py))%nat.
Proof.
  intros Ht. induction n as [|n IH]; intros r regions.
  - rewrite splitRecursive_leaf, dropped_leaf
      by (simpl; now rewrite orb_true_r).
    rewrite coverCount_app, coverCount_one. unfold coverCount at 2. simpl. lia.
  - destruct ((_w r <? 2) || (_h r <? 2)) eqn:E.
    + rewrite splitRecursive_leaf, dropped_leaf by (now rewrite E).
      rewrite coverCount_app, coverCount_one. unfold coverCount at 2.
      simpl. lia.
    + rewrite splitRecursive_split, dropped_split by exact E.
      apply orb_false_iff in E. destruct E as [Ew Eh].
      apply Z.ltb_ge in Ew, Eh.
      destruct (Ht r Ew Eh) as [Tw Th].
      assert (Hsum :
                b2n (covers r px py)
                = (b2n (covers
                          (fst (if _w r >? _h r then split_w r else split_h r))
                          px py)
                   + b2n (covers
                            (snd (if _w r >? _h r then split_w r else split_h r))
                            px py))%nat).
      { destruct (_w r >? _h r); apply b2n_covers_tiles; auto. }
      set (AB := if _w r >? _h r then split_w r else split_h r) in *.
      rewrite Hsum. unfold descend. rewrite coverCount_app.
      destruct ((_h (fst AB) >? 2) && (_w (fst AB) >? 2));
        destruct ((_h (snd AB) >? 2) && (_w (snd AB) >? 2));
        rewrite ?coverCount_one.
      * pose proof (IH (fst AB) regions) as IA.
        pose proof (IH (snd AB) (splitRecursive (fst AB) n regions)) as IB.
        lia.
      * pose proof (IH (fst AB) regions) as IA. lia.
      * pose proof (IH (snd AB) regions) as IB. lia.
      * lia.
Qed.

(** X5: with split routines whose children tile the region they split,
    every pixel of the image is accounted for exactly once, either by a
    region [medianVarianceCut] returns or by a child the recursion left
    aside; a pixel outside the image is accounted for by neither. *)
Theorem medianVarianceCut_pixel_accounting (img : SummedAreaTable) (n : nat)
  (px py : Z) :
  splitsTile ->
  (coverCount px py (medianVarianceCut img n)
   + coverCount px py (dropped (wholeImage img) n)
   = b2n (covers (wholeImage img) px py))%nat.
Proof.
  intros Ht. unfold medianVarianceCut. fold (wholeImage img).
  pose proof (coverCount_splitRecursive px py Ht n (wholeImage img) []) as H.
  unfold coverCount at 3 in H. simpl in H. exact H.
Qed.

(** X6: with such split routines the regions returned never overlap and
    never leave the image: a pixel of the image lies in at most one of them,
    a pixel outside the image in none. *)
Theorem medianVarianceCut_no_overlap (img : SummedAreaTable) (n : nat)
  (px py : Z) :
  splitsTile ->
  (coverCount px py (medianVarianceCut img n) <= 1)%nat
  /\ (covers (wholeImage img) px py = false ->
      coverCount px py (medianVarianceCut img n) = 0%nat).
Proof.
  intros Ht. unfold medianVarianceCut. fold (wholeImage img).
  pose proof (coverCount_splitRecursive px py Ht n (wholeImage img) []) as H.
  unfold coverCount at 3 in H. simpl in H.
  split.
  - destruct (covers (wholeImage img) px py); simpl in H; lia.
  - intros Hout. rewrite Hout in H. simpl in H. lia.
Qed.

(** X7: with such split routines, when the recursion leaves no child aside
    the regions returned are an exact partition of the image: every pixel of
    the image lies in exactly one of them. *)
Theorem medianVarianceCut_exact_partition (img : SummedAreaTable) (n : nat)
  (px py : Z) :
  splitsTile -> dropped (wholeImage img) n = [] ->
  covers (wholeImage img) px py = true ->
  coverCount px py (medianVarianceCut img n) = 1%nat.
Proof.
  intros Ht Hd Hin. unfold medianVarianceCut. fold (wholeImage img).
  pose proof (coverCount_splitRecursive px py Ht n (wholeImage img) []) as H.
  rewrite Hd, Hin in H. unfold coverCount at 2 3 in H. simpl in H. lia.
Qed.

(** ** The dumps *)

Lemma printVariance_from_nth (regions : SatRegionVector) :
  forall (i : Z) (k : nat) (r : SatRegion),
    nth_error regions k = Some r ->
    nth_error (printVariance_from i regions) (2 * k)
    = Some (Printf "region %d %d %d : %d %d\n"
              [PfInt (i + Z.of_nat k); PfInt (_x r); PfInt (_y r);
               PfInt (_w r); PfInt (_h r)])
    /\ nth_error (printVariance_from i regions) (2 * k + 1)
       = Some (Printf "region %d : %f %f %f %f %f %f\n"
                 [PfInt (i + Z.of_nat k); PfDouble (_sum r);
                  PfDouble (_sum1 r); PfDouble (_sum2 r); PfDouble (_sum3 r);
                  PfDouble (_sum4 r); PfDouble (_sum5 r)]).
Proof.
  induction regions as [|r0 rest IH]; intros i k r Hk.
  - destruct k; discriminate.
  - destruct k as [|k].
    + injection Hk as <-. simpl. rewrite Z.add_0_r. split; reflexivity.
    + simpl in Hk. destruct (IH (i + 1) k r Hk) as [H1 H2].
      replace (2 * S k)%nat with (S (S (2 * k))) by lia.
      replace (S (S (2 * k)) + 1)%nat with (S (S (2 * k + 1))) by lia.
      replace (i + Z.of_nat (S k)) with (i + 1 + Z.of_nat k) by lia.
      simpl nth_error. split; assumption.
Qed.

Lemma printVariance_from_length (regions : SatRegionVector) :
  forall i : Z,
    List.length (printVariance_from i regions) = (2 * List.length regions)%nat.
Proof.
  induction regions as [|r rest IH]; intros i; [reflexivity|].
  simpl. rewrite IH. lia.
Qed.

(** X8: [printVariance] writes two lines a region and nothing else: the
    region at position [k] of the vector is dumped by the [printf] calls
    number [2k] and [2k+1], both carrying the index [k], the first its
    rectangle and the second its six sums. *)
Theorem printVariance_blocks (regions : SatRegionVector) (k : nat)
  (r : SatRegion) :
  nth_error regions k = Some r ->
  List.length (printVariance regions) = (2 * List.length regions)%nat
  /\ nth_error (printVariance regions) (2 * k)
     = Some (Printf "region %d %d %d : %d %d\n"
               [PfInt (Z.of_nat k); PfInt (_x r); PfInt (_y r); PfInt (_w r);
                PfInt (_h r)])
  /\ nth_error (printVariance regions) (2 * k + 1)
     = Some (Printf "region %d : %f %f %f %f %f %f\n"
               [PfInt (Z.of_nat k); PfDouble (_sum r); PfDouble (_sum1 r);
                PfDouble (_sum2 r); PfDouble (_sum3 r); PfDouble (_sum4 r);
                PfDouble (_sum5 r)]).
Proof.
  intros Hk. unfold printVariance.
  split; [apply printVariance_from_length|].
  exact (printVariance_from_nth regions 0 k r Hk).
Qed.


(** ** The formatter *)

Lemma kept_all_culled (lights : LightVector) :
  Forall (fun l => culled l = true) lights -> kept lights = [].
Proof.
  induction 1 as [|l rest Hl _ IH]; [reflexivity|].
  unfold kept in *. simpl. now rewrite Hl.
Qed.

(** X10: when every light is culled (the empty list included), whatever
    [numLights] is, [outputJSON] writes the empty array: an opening bracket
    and a closing bracket and nothing between them. *)
Theorem outputJSON_all_culled (lights : LightVector)
  (height width imageAreaSize : Z) (luminanceSum : float) (numLights : Z) :
  Forall (fun l => culled l = true) lights ->
  outputJSON lights height width imageAreaSize luminanceSum numLights
  = [Os_str "["; Os_str "]"].
Proof.
  intros H. rewrite outputJSON_emitted. unfold emittedLights.
  rewrite (kept_all_culled lights H), firstn_nil. reflexivity.
Qed.

(** X11: the number of records [outputJSON] writes is the smaller of the
    cap [numLightsMax] and the number of lights that pass the cull. *)
Theorem outputJSON_record_count (lights : LightVector)
  (height width imageAreaSize : Z) (luminanceSum : float) (numLights : Z) :
  countRecords
    (outputJSON lights height width imageAreaSize luminanceSum numLights)
  = Nat.min
      (Z.to_nat
         (if numLights >? 0 then numLights else Z.of_nat (List.length lights)))
      (List.length (filter (fun l => negb (culled l)) lights)).
Proof.
  rewrite countRecords_outputJSON. unfold emittedLights, lightsCap, kept.
  apply length_firstn.
Qed.

Lemma countCommas_app (a b : list Out) :
  countCommas (a ++ b) = (countCommas a + countCommas b)%nat.
Proof.
  unfold countCommas. now rewrite filter_app, length_app.
Qed.

Lemma countCommas_emitLight (l : Light) (i numLightsMax : Z) (s : float) :
  countCommas (emitLight l i numLightsMax s)
  = b2n (i <? size_t_sub numLightsMax 1).
Proof.
  unfold emitLight. rewrite countCommas_app.
  unfold jsonRecord. destruct (direction l) as [[d0 d1] d2].
  destruct (i <? size_t_sub numLightsMax 1); reflexivity.
Qed.

Lemma size_t_sub_1 (m : Z) : 1 <= m < 2 ^ 64 -> size_t_sub m 1 = m - 1.
Proof.
  intros H. unfold size_t_sub. apply Z.mod_small. lia.
Qed.

Lemma countCommas_emitFrom (s : float) (numLightsMax : Z) :
  numLightsMax < 2 ^ 64 ->
  forall (lights : LightVector) (i : Z),
    0 <= i -> i + Z.of_nat (List.length lights) <= numLightsMax ->
    countCommas (emitFrom lights i numLightsMax s)
    = if i + Z.of_nat (List.length lights) <? numLightsMax
      then List.length lights
      else Nat.pred (List.length lights).
Proof.
  intros Hmax. induction lights as [|l rest IH]; intros i Hi Hlen.
  - simpl. now destruct (i + 0 <? numLightsMax).
  - simpl emitFrom. rewrite countCommas_app, countCommas_emitLight.
    simpl List.length in *.
    rewrite size_t_sub_1 by lia.
    rewrite IH by lia.
    replace (i + 1 + Z.of_nat (List.length rest))
      with (i + Z.of_nat (S (List.length rest))) by lia.
    destruct (i + Z.of_nat (S (List.length rest)) <? numLightsMax) eqn:E.
    + apply Z.ltb_lt in E.
      replace (i <? numLightsMax - 1) with true
        by (symmetry; apply Z.ltb_lt; lia).
      reflexivity.
    + apply Z.ltb_ge in E. destruct rest as [|l1 rest1].
      * replace (i <? numLightsMax - 1) with false
          by (symmetry; apply Z.ltb_ge; simpl in *; lia).
        reflexivity.
      * replace (i <? numLightsMax - 1) with true
          by (symmetry; apply Z.ltb_lt; simpl List.length in *; lia).
        reflexivity.
Qed.

Lemma emitFrom_last (s : float) (numLightsMax : Z) (l : Light) :
  forall (lights : LightVector) (i : Z),
    emitFrom (lights ++ [l]) i numLightsMax s
    = emitFrom lights i numLightsMax s
      ++ emitLight l (i + Z.of_nat (List.length lights)) numLightsMax s.
Proof.
  induction lights as [|l0 rest IH]; intros i.
  - simpl. now rewrite app_nil_r, Z.add_0_r.
  - simpl emitFrom. rewrite IH, <- app_assoc. simpl List.length.
    now replace (i + 1 + Z.of_nat (List.length rest))
      with (i + Z.of_nat (S (List.length rest))) by lia.
Qed.

Lemma jsonRecord_ends (l : Light) (s : float) :
  exists pre, jsonRecord l s = pre ++ [Os_endl].
Proof.
  exists (removelast (jsonRecord l s)).
  unfold jsonRecord. destruct (direction l) as [[d0 d1] d2]. reflexivity.
Qed.

(** X12: the commas of [outputJSON].  With [k] records written under a cap
    [numLightsMax] that fits [size_t]: when [k] reaches the cap there are
    [k - 1] commas, one between two records; when [k] stays below the cap
    there are [k] commas, and if a record was written at all the array ends
    with a comma before its closing bracket. *)
Theorem outputJSON_commas (lights : LightVector)
  (height width imageAreaSize : Z) (luminanceSum : float) (numLights : Z) :
  let numLightsMax :=
    if numLights >? 0 then numLights else Z.of_nat (List.length lights) in
  let out :=
    outputJSON lights height width imageAreaSize luminanceSum numLights in
  numLightsMax < 2 ^ 64 ->
  (Z.of_nat (countRecords out) = numLightsMax ->
   countCommas out = Nat.pred (countRecords out))
  /\ (Z.of_nat (countRecords out) < numLightsMax ->
      countCommas out = countRecords out
      /\ ((0 < countRecords out)%nat ->
          exists pre, out = pre ++ [Os_endl; Os_str ","; Os_str "]"])).
Proof.
  intros numLightsMax out Hmax. subst out.
  rewrite countRecords_outputJSON, outputJSON_emitted.
  fold (lightsCap lights numLights) in numLightsMax. subst numLightsMax.
  set (cap := lightsCap lights numLights) in *.
  set (em := emittedLights lights numLights).
  assert (Hle : Z.of_nat (List.length em) <= cap \/ em = []).
  { unfold em, emittedLights. fold cap.
    destruct (Z_le_gt_dec 0 cap) as [H0|H0].
    - left. pose proof (firstn_le_length (Z.to_nat cap) (kept lights)). lia.
    - right. replace (Z.to_nat cap) with O by lia. reflexivity. }
  assert (Hcount :
            Z.of_nat (List.length em) <= cap ->
            countCommas
              ([Os_str "["] ++ emitFrom em 0 cap luminanceSum ++ [Os_str "]"])
            = if Z.of_nat (List.length em) <? cap then List.length em
              else Nat.pred (List.length em)).
  { intros H. rewrite !countCommas_app.
    rewrite (countCommas_emitFrom luminanceSum cap Hmax em 0) by lia.
    change (countCommas [Os_str "["]) with 0%nat.
    change (countCommas [Os_str "]"]) with 0%nat.
    rewrite Z.add_0_l. lia. }
  split.
  - intros Heq. rewrite Hcount by lia.
    now replace (Z.of_nat (List.length em) <? cap) with false
      by (symmetry; apply Z.ltb_ge; lia).
  - intros Hlt. split.
    + destruct Hle as [Hle|Hnil].
      * rewrite Hcount by exact Hle.
        now replace (Z.of_nat (List.length em) <? cap) with true
          by (symmetry; apply Z.ltb_lt; lia).
      * rewrite Hnil. reflexivity.
    + intros Hpos.
      destruct (exists_last (l := em)) as (front & l & Hem).
      { intros Hnil. rewrite Hnil in Hpos. simpl in Hpos. lia. }
      rewrite Hem in *. rewrite length_app in Hlt. simpl in Hlt.
      rewrite emitFrom_last. unfold emitLight.
      rewrite size_t_sub_1 by lia.
      replace (0 + Z.of_nat (List.length front) <? cap - 1) with true
        by (symmetry; apply Z.ltb_lt; lia).
      destruct (jsonRecord_ends l luminanceSum) as (pre & Hpre).
      rewrite Hpre.
      exists ([Os_str "["] ++ emitFrom front 0 cap luminanceSum ++ pre).
      rewrite <- !app_assoc. reflexivity.
Qed.

(** ** The driver *)

Ltac setOption_cases :=
  unfold setOption;
  repeat match goal with
         | |- context [Ascii.eqb ?c ?k] =>
             let E := fresh "E" in
             destruct (Ascii.eqb c k) eqn:E;
             [apply Ascii.eqb_eq in E | apply Ascii.eqb_neq in E]
         end.

(** An option variable is left alone by every option character but its
    own. *)
Lemma setOption_others (c : ascii) (optarg : string) (o o1 : Options) :
  setOption c optarg o = Some o1 ->
  (c <> "a"%char -> ratioAreaSizeMax o1 = ratioAreaSizeMax o)
  /\ (c <> "l"%char -> ratioLengthSizeMax o1 = ratioLengthSizeMax o)
  /\ (c <> "m"%char -> numLights o1 = numLights o)
  /\ (c <> "n"%char -> numCuts o1 = numCuts o)
  /\ (c <> "r"%char -> ratioLuminanceLight o1 = ratioLuminanceLight o)
  /\ (c <> "d"%char -> debug o1 = debug o).
Proof.
  setOption_cases; intros H; try discriminate; injection H as <-;
    repeat split; intros Hc; try reflexivity; contradiction.
Qed.

Lemma setOption_own (c : ascii) (optarg : string) (o o1 : Options) :
  setOption c optarg o = Some o1 ->
  (c = "a"%char -> ratioAreaSizeMax o1 = atof optarg)
  /\ (c = "l"%char -> ratioLengthSizeMax o1 = atof optarg)
  /\ (c = "m"%char -> numLights o1 = atoi optarg)
  /\ (c = "n"%char -> numCuts o1 = atoi optarg)
  /\ (c = "r"%char -> ratioLuminanceLight o1 = float_of_double (atof optarg))
  /\ (c = "d"%char -> debug o1 = true).
Proof.
  setOption_cases; intros H; try discriminate; injection H as <-; subst c;
    repeat split; intros Hc; try reflexivity; discriminate.
Qed.

Lemma parseOptions_app (a b : list (ascii * string)) :
  forall o : Options,
    parseOptions (a ++ b) o
    = match parseOptions a o with
      | Some o1 => parseOptions b o1
      | None => None
      end.
Proof.
  induction a as [|[c s] rest IH]; intros o; simpl; [reflexivity|].
  destruct (setOption c s o); [apply IH | reflexivity].
Qed.

Lemma parseOptions_others (results : list (ascii * string)) :
  forall o o1 : Options,
    parseOptions results o = Some o1 ->
    (absent "a" results -> ratioAreaSizeMax o1 = ratioAreaSizeMax o)
    /\ (absent "l" results -> ratioLengthSizeMax o1 = ratioLengthSizeMax o)
    /\ (absent "m" results -> numLights o1 = numLights o)
    /\ (absent "n" results -> numCuts o1 = numCuts o)
    /\ (absent "r" results -> ratioLuminanceLight o1 = ratioLuminanceLight o)
    /\ (absent "d" results -> debug o1 = debug o).
Proof.
  induction results as [|[c s] rest IH]; intros o o1; simpl.
  - intros [= <-]. repeat split; reflexivity.
  - destruct (setOption c s o) as [o2|] eqn:E; [|discriminate].
    intros H. destruct (IH o2 o1 H) as (Ia & Il & Im & In_ & Ir & Id).
    destruct (setOption_others c s o o2 E) as (Sa & Sl & Sm & Sn & Sr & Sd).
    assert (Hsplit : forall k, absent k ((c, s) :: rest) ->
                               c <> k /\ absent k rest).
    { intros k Hk. split.
      - apply (Hk c s). now left.
      - intros c1 a1 Hin. apply (Hk c1 a1). now right. }
    repeat split; intros Hk; apply Hsplit in Hk; destruct Hk as [Hc Hr].
    + now rewrite Ia, Sa.
    + now rewrite Il, Sl.
    + now rewrite Im, Sm.
    + now rewrite In_, Sn.
    + now rewrite Ir, Sr.
    + now rewrite Id, Sd.
Qed.

(** X13: when an option is given more than once the last one counts: after
    a command line that parses, each option variable holds the value of the
    last occurrence of its option character, converted by [atoi] or [atof]
    ([-r] through [float], [-d] as [true]). *)
Theorem parseOptions_last_wins (pre post : list (ascii * string)) (c : ascii)
  (optarg : string) (o o1 : Options) :
  parseOptions (pre ++ (c, optarg) :: post) o = Some o1 ->
  absent c post ->
  (c = "a"%char -> ratioAreaSizeMax o1 = atof optarg)
  /\ (c = "l"%char -> ratioLengthSizeMax o1 = atof optarg)
  /\ (c = "m"%char -> numLights o1 = atoi optarg)
  /\ (c = "n"%char -> numCuts o1 = atoi optarg)
  /\ (c = "r"%char -> ratioLuminanceLight o1 = float_of_double (atof optarg))
  /\ (c = "d"%char -> debug o1 = true).
Proof.
  intros H Habs. rewrite parseOptions_app in H.
  destruct (parseOptions pre o) as [o2|]; [|discriminate].
  simpl in H. destruct (setOption c optarg o2) as [o3|] eqn:E; [|discriminate].
  destruct (parseOptions_others post o3 o1 H) as (Pa & Pl & Pm & Pn & Pr & Pd).
  destruct (setOption_own c optarg o2 o3 E) as (Sa & Sl & Sm & Sn & Sr & Sd).
  repeat split; intros Hc; subst c.
  - now rewrite Pa, Sa.
  - now rewrite Pl, Sl.
  - now rewrite Pm, Sm.
  - now rewrite Pn, Sn.
  - now rewrite Pr, Sr.
  - now rewrite Pd, Sd.
Qed.

Lemma parseOptions_known (results : list (ascii * string)) (o : Options) :
  (forall c optarg, In (c, optarg) results -> knownFlag c = true) ->
  exists o1, parseOptions results o = Some o1.
Proof.
  intros Hk. destruct (parseOptions results o) as [o1|] eqn:E.
  - now exists o1.
  - apply parseOptions_None in E. destruct E as (c & a & Hin & Hc).
    rewrite (Hk c a Hin) in Hc. discriminate.
Qed.

(** X14: on a usage error [main] exits with 1 and writes nothing to the
    standard output.  When [getopt] returned a character without a case, the
    standard error holds the diagnostic of [getopt] followed by the usage
    line with [argv[0]]; when every option was known and no argument is left
    at [optind], it holds the usage line alone.  No file is looked at. *)
Theorem main_usage_error (cl : Cmdline) :
  ((exists c optarg,
      In (c, optarg) (getopt_results cl) /\ knownFlag c = false) ->
   main cl
   = mkRun 1 []
       (getopt_diagnostic cl
        ++ [ Os_str "Usage: "; Os_str (nth 0 (argv cl) EmptyString);
             Os_str (" [-a max_light_areas] [-l max_light_length] "
                     ++ "[-r ratioLight] [-n numCuts] [-m lightsNum] [-d] "
                     ++ "file.hdr");
             Os_endl ]))
  /\ ((forall c optarg,
         In (c, optarg) (getopt_results cl) -> knownFlag c = true) ->
      (List.length (argv cl) <= optind cl)%nat ->
      main cl
      = mkRun 1 []
          [ Os_str "Usage: "; Os_str (nth 0 (argv cl) EmptyString);
            Os_str (" [-a max_light_areas] [-l max_light_length] "
                    ++ "[-r ratioLight] [-n numCuts] [-m lightsNum] [-d] "
                    ++ "file.hdr");
            Os_endl ]).
Proof.
  split.
  - intros Hflag. unfold main.
    apply (parseOptions_None _ defaultOptions) in Hflag.
    rewrite Hflag. reflexivity.
  - intros Hk Hpos. unfold main.
    destruct (parseOptions_known _ defaultOptions Hk) as [o Ho].
    apply nth_error_None in Hpos. rewrite Ho, Hpos. reflexivity.
Qed.

(** X15: when the options parse and the file at [optind] does not decode,
    the decoder's message is all that reaches the standard output, and the
    line on the standard error names [argv[1]], which is the file only when
    no option comes before it. *)
Theorem main_decode_failure (cl : Cmdline) (file err : string) :
  (forall c optarg, In (c, optarg) (getopt_results cl) -> knownFlag c = true) ->
  nth_error (argv cl) (optind cl) = Some file ->
  LoadEXR file = inl err ->
  main cl
  = mkRun 1 [Printf "%s" [PfStr err]]
      [ Os_str "Cannot open "; Os_str (nth 1 (argv cl) EmptyString);
        Os_str " image file"; Os_endl ].
Proof.
  intros Hk Hf He. unfold main.
  destruct (parseOptions_known _ defaultOptions Hk) as [o Ho].
  rewrite Ho, Hf. unfold load_image_exr. now rewrite He.
Qed.

(** X16: when the partitioner returns no region, nothing at all has been
    written to the standard output, and the line on the standard error names
    [argv[1]]. *)
Theorem main_empty_partition (cl : Cmdline) :
  emptyPartition cl ->
  main cl
  = mkRun 1 []
      [ Os_str "Cannot cut "; Os_str (nth 1 (argv cl) EmptyString);
        Os_str " into light regions"; Os_endl ].
Proof.
  intros (o & file & data & w & h & Ho & Hf & Hl & He). unfold main.
  rewrite Ho, Hf. unfold load_image_exr. rewrite Hl.
  simpl negb. cbv iota. unfold extract. simpl img_data. simpl img_width.
  simpl img_height. simpl img_nc. rewrite He. reflexivity.
Qed.

(** X17: the exit code of [main] is 0 or 1, and it is 0 exactly when nothing
    was written to the standard error. *)
Theorem main_exit_code_and_stderr (cl : Cmdline) :
  (exit_code (main cl) = 0 \/ exit_code (main cl) = 1)
  /\ (exit_code (main cl) = 0 <-> stderr (main cl) = []).
Proof.
  unfold main.
  destruct (parseOptions (getopt_results cl) defaultOptions) as [o|].
  2:{ simpl. split; [now right|]. split; [discriminate|].
      intros H. apply app_eq_nil in H. destruct H as [_ H]. discriminate. }
  destruct (nth_error (argv cl) (optind cl)) as [file|].
  2:{ simpl. split; [now right|]. split; discriminate. }
  unfold load_image_exr.
  destruct (LoadEXR file) as [err|[[data w] h]].
  { simpl. split; [now right|]. split; discriminate. }
  simpl negb. cbv iota. simpl exit_code. simpl stderr.
  unfold extract.
  destruct (medianVarianceCut _ _) as [|r regions].
  - simpl. split; [now right|]. split; discriminate.
  - destruct (mergeLights _ _ _ _ _ _ _) as [lights mainLights].
    simpl. split; [now left|]. split; reflexivity.
Qed.

(** X18: a run that ends with exit code 0 has dumped at most [2^numCuts]
    regions before the opening bracket of the array, [numCuts] read as
    [uint]; without [-n] that is at most 256 regions. *)
Theorem main_region_budget (cl : Cmdline) :
  exit_code (main cl) = 0 ->
  exists o regions rest,
    parseOptions (getopt_results cl) defaultOptions = Some o
    /\ stdout (main cl) = printVariance regions ++ Os_str "[" :: rest
    /\ (List.length regions <= 2 ^ Z.to_nat (to_uint (numCuts o)))%nat
    /\ (absent "n" (getopt_results cl) -> (List.length regions <= 256)%nat).
Proof.
  unfold main.
  destruct (parseOptions (getopt_results cl) defaultOptions) as [o|] eqn:Ho;
    [|discriminate].
  destruct (nth_error (argv cl) (optind cl)) as [file|]; [|discriminate].
  unfold load_image_exr.
  destruct (LoadEXR file) as [err|[[data w] h]]; [discriminate|].
  simpl negb. cbv iota. simpl exit_code. simpl stdout.
  unfold extract. simpl img_data. simpl img_width. simpl img_height.
  simpl img_nc.
  set (n := Z.to_nat (to_uint (numCuts o))).
  assert (Hlen : (List.length (medianVarianceCut (createLum data w h 4) n)
                  <= 2 ^ n)%nat).
  { unfold medianVarianceCut.
    pose proof (splitRecursive_length n
                  (create 0 0 (table_width (createLum data w h 4))
                     (table_height (createLum data w h 4))
                     (createLum data w h 4)) []) as H.
    exact H. }
  destruct (medianVarianceCut (createLum data w h 4) n) as [|r regions] eqn:E;
    [discriminate|].
  destruct (mergeLights _ _ _ _ _ _ _) as [lights mainLights].
  intros _. simpl stdout.
  exists o, (r :: regions). eexists.
  split; [reflexivity|]. split.
  - unfold outputJSON. rewrite <- !app_assoc. simpl app. reflexivity.
  - split; [exact Hlen|].
    intros Hn.
    destruct (parseOptions_others _ _ _ Ho) as (_ & _ & _ & Pn & _ & _).
    unfold n in Hlen. rewrite (Pn Hn) in Hlen. exact Hlen.
Qed.

(** ** The standard output of a run that goes through *)

(** A run that ends with exit code 0, with the regions it dumped tied to
    the partitioner. *)
Lemma main_success_partition (cl : Cmdline) :
  exit_code (main cl) = 0 ->
  exists o file data w h mainLights height width imageAreaSize luminanceSum dbg,
    parseOptions (getopt_results cl) defaultOptions = Some o
    /\ nth_error (argv cl) (optind cl) = Some file
    /\ LoadEXR file = inr (data, w, h)
    /\ medianVarianceCut (createLum data w h 4)
         (Z.to_nat (to_uint (numCuts o))) <> []
    /\ stdout (main cl)
       = printVariance
           (medianVarianceCut (createLum data w h 4)
              (Z.to_nat (to_uint (numCuts o))))
         ++ outputJSON mainLights height width imageAreaSize luminanceSum
              (numLights o)
         ++ dbg
    /\ (debug o = false -> dbg = []).
Proof.
  unfold main.
  destruct (parseOptions (getopt_results cl) defaultOptions) as [o|] eqn:Ho;
    [|discriminate].
  destruct (nth_error (argv cl) (optind cl)) as [file|] eqn:Hf;
    [|discriminate].
  unfold load_image_exr.
  destruct (LoadEXR file) as [err|[[data w] h]] eqn:Hl; [discriminate|].
  simpl negb. cbv iota. simpl exit_code. simpl stdout.
  set (image := mkImage w h data 4).
  destruct (medianVarianceCut
              (createLum (img_data image) (img_width image) (img_height image)
                 (img_nc image))
              (Z.to_nat (to_uint (numCuts o)))) as [|r regions] eqn:E.
  - rewrite (extract_empty cl o image E). discriminate.
  - intros _.
    destruct (extract_nonempty cl o image r regions E)
      as (_ & mainLights & dbg & Hout & Hdbg).
    exists o, file, data, w, h, mainLights. do 4 eexists. exists dbg.
    simpl in E. rewrite E.
    split; [reflexivity|]. split; [reflexivity|]. split; [exact Hl|].
    split; [discriminate|]. split; [exact Hout | exact Hdbg].
Qed.

Lemma nth_error_app_left {A : Type} (a b : list A) (k : nat) (x : A) :
  nth_error a k = Some x -> nth_error (a ++ b) k = Some x.
Proof.
  intros H. rewrite nth_error_app1; [exact H|].
  apply nth_error_Some. congruence.
Qed.

(** C9: a run that ends with exit code 0 has loaded the file at [optind]
    and written, before anything else, the region dump of the partition of
    that image: for every region the partitioner returned, at position [k],
    the two [printf] lines of [printVariance] with index [k] stand at
    positions [2k] and [2k+1] of the standard output, and the opening
    bracket of the JSON array comes right after the last of them.  This holds
    whether or not [-d] was given (without [-d] nothing follows the array);
    the partition is not empty, so the standard output is never the output
    of [outputJSON] alone. *)
Theorem main_dumps_regions_first (cl : Cmdline) :
  exit_code (main cl) = 0 ->
  (exists o file data w h,
     parseOptions (getopt_results cl) defaultOptions = Some o
     /\ nth_error (argv cl) (optind cl) = Some file
     /\ LoadEXR file = inr (data, w, h)
     /\ let regions :=
          medianVarianceCut (createLum data w h 4)
            (Z.to_nat (to_uint (numCuts o))) in
        regions <> []
        /\ (forall k r,
              nth_error regions k = Some r ->
              nth_error (stdout (main cl)) (2 * k)
              = Some (Printf "region %d %d %d : %d %d\n"
                        [PfInt (Z.of_nat k); PfInt (_x r); PfInt (_y r);
                         PfInt (_w r); PfInt (_h r)])
              /\ nth_error (stdout (main cl)) (2 * k + 1)
                 = Some (Printf "region %d : %f %f %f %f %f %f\n"
                           [PfInt (Z.of_nat k); PfDouble (_sum r);
                            PfDouble (_sum1 r); PfDouble (_sum2 r);
                            PfDouble (_sum3 r); PfDouble (_sum4 r);
                            PfDouble (_sum5 r)]))
        /\ nth_error (stdout (main cl)) (2 * List.length regions)
           = Some (Os_str "[")
        /\ exists mainLights height width imageAreaSize luminanceSum dbg,
             stdout (main cl)
             = printVariance regions
               ++ outputJSON mainLights height width imageAreaSize
                    luminanceSum (numLights o)
               ++ dbg
             /\ (absent "d" (getopt_results cl) -> dbg = []))
  /\ (forall lights height width imageAreaSize luminanceSum numLights,
        stdout (main cl)
        <> outputJSON lights height width imageAreaSize luminanceSum numLights).
Proof.
  intros H0.
  destruct (main_success_partition cl H0)
    as (o & file & data & w & h & mainLights & hh & ww & aa & ss & dbg
        & Ho & Hf & Hl & Hne & Hout & Hdbg).
  split.
  - exists o, file, data, w, h.
    refine (conj Ho (conj Hf (conj Hl _))). cbv zeta.
    set (regions := medianVarianceCut (createLum data w h 4)
                      (Z.to_nat (to_uint (numCuts o)))) in *.
    split; [exact Hne|]. split; [|split].
    + intros k r Hk. rewrite Hout. unfold printVariance.
      destruct (printVariance_from_nth regions 0 k r Hk) as [H1 H2].
      rewrite Z.add_0_l in H1, H2.
      split; apply nth_error_app_left; assumption.
    + rewrite Hout. rewrite nth_error_app2;
        unfold printVariance; rewrite printVariance_from_length; [|lia].
      rewrite Nat.sub_diag. reflexivity.
    + exists mainLights, hh, ww, aa, ss, dbg. split; [exact Hout|].
      intros Hd. apply Hdbg.
      destruct (parseOptions_others _ _ _ Ho) as (_ & _ & _ & _ & _ & Pd).
      now rewrite (Pd Hd).
  - intros lights hh' ww' aa' ss' k. rewrite Hout.
    destruct (medianVarianceCut (createLum data w h 4)
                (Z.to_nat (to_uint (numCuts o)))) as [|r regions];
      [contradiction|].
    discriminate.
Qed.

Lemma emitFrom_one_of (l : Light) (numLightsMax : Z) (s : float) :
  forall (lights : LightVector) (i0 : Z),
    In l lights ->
    exists pre post,
      emitFrom lights i0 numLightsMax s = pre ++ jsonRecord l s ++ post.
Proof.
  intros lights i0 Hin.
  destruct (emitFrom_In l numLightsMax s lights i0 Hin) as (pre & post & i & E).
  exists pre. eexists. rewrite E. unfold emitLight.
  now rewrite <- app_assoc.
Qed.

(** C10: with [numLights <= 0] the cap is the size of the light list and a
    record is written for every light that passes the cull: as many records
    as there are such lights, and for each of them its own record, token by
    token.  With [numLights > 0] the records written are those of the first
    [numLights] lights that pass the cull, so at most [numLights].  [main]
    starts from [numLights = 1], so a run that was given no [-m] calls
    [outputJSON] with 1, if it gets that far, and (the debug output of [-d]
    apart) writes at most one record. *)
Theorem outputJSON_cap :
  let record := fun (l : Light) (luminanceSum : float) =>
    let u := fst (_centroidPosition l) in
    let v := snd (_centroidPosition l) in
    let phi := (u * 2.0 * PI - PI * 0.5)%float in
    let theta := ((1.0 - v) * PI)%float in
    let n :=
      fst (normalize
             ((sin theta * cos phi)%float, cos theta,
              (sin theta * sin phi)%float)) in
    [ Os_str "{";
      Os_str (" " ++ dq ++ "direction" ++ dq ++ ": [");
      Os_double (fst (fst n)); Os_str ", "; Os_double (snd (fst n));
      Os_str ", "; Os_double (snd n); Os_str "], ";
      Os_str (" " ++ dq ++ "luminosity" ++ dq ++ ": ");
      Os_double (_lumAverage l); Os_str ", ";
      Os_str (" " ++ dq ++ "color" ++ dq ++ ": [");
      Os_float (float_of_double (_rAverage l)); Os_str ", ";
      Os_float (float_of_double (_gAverage l)); Os_str ", ";
      Os_float (float_of_double (_bAverage l)); Os_str "], ";
      Os_str (" " ++ dq ++ "area" ++ dq ++ ": {" ++ dq ++ "x" ++ dq ++ ":");
      Os_double u;
      Os_str (", " ++ dq ++ "y" ++ dq ++ ":"); Os_double v;
      Os_str (", " ++ dq ++ "w" ++ dq ++ ":"); Os_double (light_w l);
      Os_str (", " ++ dq ++ "h" ++ dq ++ ":"); Os_double (light_h l);
      Os_str "}, ";
      Os_str (" " ++ dq ++ "sum" ++ dq ++ ": ");
      Os_double (light_sum l); Os_str ", ";
      Os_str (" " ++ dq ++ "lum_ratio" ++ dq ++ ": ");
      Os_double (light_sum l / luminanceSum)%float; Os_str ", ";
      Os_str (" " ++ dq ++ "variance" ++ dq ++ ": ");
      Os_double (_variance l); Os_str ", ";
      Os_str (" " ++ dq ++ "error" ++ dq ++ ": ");
      Os_int (if _error l then 1 else 0); Os_str " ";
      Os_str " }"; Os_endl ] in
  let passing := fun lights : LightVector =>
    filter (fun l => negb (culled l)) lights in
  (forall lights height width imageAreaSize luminanceSum numLights,
     numLights <= 0 ->
     outputJSON lights height width imageAreaSize luminanceSum numLights
     = [Os_str "["]
       ++ emitFrom (kept lights) 0 (Z.of_nat (List.length lights)) luminanceSum
       ++ [Os_str "]"]
     /\ countRecords
          (outputJSON lights height width imageAreaSize luminanceSum numLights)
        = List.length (passing lights)
     /\ forall l,
          In l lights -> culled l = false ->
          exists pre post,
            outputJSON lights height width imageAreaSize luminanceSum numLights
            = pre ++ record l luminanceSum ++ post)
  /\ (forall lights height width imageAreaSize luminanceSum numLights,
        0 < numLights ->
        (countRecords
           (outputJSON lights height width imageAreaSize luminanceSum numLights)
         <= Z.to_nat numLights)%nat
        /\ countRecords
             (outputJSON lights height width imageAreaSize luminanceSum
                numLights)
           = Nat.min (Z.to_nat numLights) (List.length (passing lights))
        /\ forall l,
             In l (firstn (Z.to_nat numLights) (passing lights)) ->
             exists pre post,
               outputJSON lights height width imageAreaSize luminanceSum
                 numLights
               = pre ++ record l luminanceSum ++ post)
  /\ (forall cl,
        absent "m" (getopt_results cl) ->
        exit_code (main cl) = 0 ->
        exists regions mainLights height width imageAreaSize luminanceSum dbg,
          stdout (main cl)
          = printVariance regions
            ++ outputJSON mainLights height width imageAreaSize luminanceSum 1
            ++ dbg
          /\ countRecords
               (outputJSON mainLights height width imageAreaSize luminanceSum 1)
             = Nat.min 1 (List.length (passing mainLights)))
  /\ (forall cl,
        absent "m" (getopt_results cl) ->
        absent "d" (getopt_results cl) ->
        (countRecords (stdout (main cl)) <= 1)%nat).
Proof.
  intros record passing.
  assert (Hrec : forall l s, jsonRecord l s = record l s).
  { intros l s. unfold jsonRecord, record, direction.
    destruct (fst (normalize _)) as [[d0 d1] d2]. reflexivity. }
  assert (Hin : forall lights hh ww aa s k l,
             In l (emittedLights lights k) ->
             exists pre post,
               outputJSON lights hh ww aa s k = pre ++ record l s ++ post).
  { intros lights hh ww aa s k l Hl. rewrite outputJSON_emitted.
    destruct (emitFrom_one_of l (lightsCap lights k) s _ 0 Hl)
      as (pre & post & E).
    rewrite E, Hrec. exists ([Os_str "["] ++ pre), (post ++ [Os_str "]"]).
    now rewrite <- !app_assoc. }
  assert (Hall : forall lights k, k <= 0 -> emittedLights lights k = kept lights).
  { intros lights k Hk. unfold emittedLights, lightsCap.
    replace (k >? 0) with false
      by (symmetry; rewrite Z.gtb_ltb; apply Z.ltb_ge; exact Hk).
    rewrite Nat2Z.id. apply firstn_all2, kept_length. }
  assert (Hcap : forall lights k,
             0 < k ->
             emittedLights lights k = firstn (Z.to_nat k) (passing lights)).
  { intros lights k Hk. unfold emittedLights, lightsCap.
    now replace (k >? 0) with true by (symmetry; apply Z.gtb_lt; exact Hk). }
  split; [|split; [|split]].
  - intros lights hh ww aa s k Hk. split; [|split].
    + rewrite outputJSON_emitted, (Hall lights k Hk). unfold lightsCap.
      now replace (k >? 0) with false
        by (symmetry; rewrite Z.gtb_ltb; apply Z.ltb_ge; exact Hk).
    + now rewrite countRecords_outputJSON, (Hall lights k Hk).
    + intros l Hl Hc. apply Hin. rewrite (Hall lights k Hk).
      apply filter_In. split; [exact Hl | now rewrite Hc].
  - intros lights hh ww aa s k Hk. split; [|split].
    + rewrite countRecords_outputJSON, (Hcap lights k Hk).
      apply firstn_le_length.
    + rewrite countRecords_outputJSON, (Hcap lights k Hk).
      apply length_firstn.
    + intros l Hl. apply Hin. now rewrite (Hcap lights k Hk).
  - intros cl Hm H0.
    destruct (main_success_partition cl H0)
      as (o & file & data & w & h & mainLights & hh & ww & aa & ss & dbg
          & Ho & _ & _ & _ & Hout & _).
    destruct (parseOptions_others _ _ _ Ho) as (_ & _ & Pm & _ & _ & _).
    rewrite (Pm Hm) in Hout.
    eexists. exists mainLights, hh, ww, aa, ss, dbg.
    split; [exact Hout|].
    rewrite countRecords_outputJSON, (Hcap mainLights 1) by lia.
    apply length_firstn.
  - intros cl Hm Hd.
    destruct (Z.eq_dec (exit_code (main cl)) 0) as [H0|H0].
    + destruct (main_success_partition cl H0)
        as (o & file & data & w & h & mainLights & hh & ww & aa & ss & dbg
            & Ho & _ & _ & _ & Hout & Hdbg).
      destruct (parseOptions_others _ _ _ Ho) as (_ & _ & Pm & _ & _ & Pd).
      rewrite Hout, Hdbg by (now rewrite (Pd Hd)).
      rewrite (Pm Hm). change (numLights defaultOptions) with 1.
      rewrite !countRecords_app, countRecords_outputJSON.
      unfold printVariance. rewrite countRecords_printVariance_from.
      change (countRecords []) with 0%nat. rewrite Nat.add_0_r.
      rewrite (Hcap mainLights 1) by lia. apply firstn_le_length.
    + rewrite (main_failure_no_record cl H0). lia.
Qed.

End Further.

(** * The further properties on concrete inputs *)

(** The split routines of the flat image meet what the geometry asks. *)
Lemma flat_splitsTile : @splitsTile sample.
Proof.
  unfold splitsTile, tiles_w, tiles_h. simpl. intros r Hw Hh.
  repeat split; try reflexivity; Z.div_mod_to_equations; lia.
Qed.

Lemma flat_splitsKeepOtherSide : @splitsKeepOtherSide sample.
Proof.
  intros r. simpl. repeat split; reflexivity.
Qed.

Lemma flat_createStoresSize : @createStoresSize sample.
Proof.
  intros x y w h t. simpl. split; reflexivity.
Qed.

(** X2 on a flat image 1 pixel wide and 5 high with budget 3. *)
Lemma medianVarianceCut_whole_image_witness :
  _w (@wholeImage sample (mkFlatTable 1 5)) < 2
  /\ flat_medianVarianceCut (mkFlatTable 1 5) 3
     = [flat_create 0 0 1 5 (mkFlatTable 1 5)].
Proof.
  assert (H : _w (@wholeImage sample (mkFlatTable 1 5)) < 2) by reflexivity.
  split; [exact H|].
  exact (@medianVarianceCut_whole_image sample (mkFlatTable 1 5) 3
           (or_intror (or_introl H))).
Defined.

(** X3 on the lower half of the flat 8 by 8 image, returned with budget 1. *)
Lemma medianVarianceCut_regions_large_witness :
  In (flat_create 0 4 8 4 (mkFlatTable 8 8))
    (flat_medianVarianceCut (mkFlatTable 8 8) 1)
  /\ (flat_create 0 4 8 4 (mkFlatTable 8 8) = @wholeImage sample (mkFlatTable 8 8)
      \/ (2 < 8 /\ 2 < 4)).
Proof.
  assert (H : In (flat_create 0 4 8 4 (mkFlatTable 8 8))
                (flat_medianVarianceCut (mkFlatTable 8 8) 1))
    by (right; left; reflexivity).
  split; [exact H|].
  exact (@medianVarianceCut_regions_large sample (mkFlatTable 8 8) 1 _ H).
Defined.

(** X4 on the flat image 6 pixels wide and 2 high with budget 1. *)
Lemma medianVarianceCut_thin_image_witness :
  (2 <= 6 /\ 2 <= 2) /\ flat_medianVarianceCut (mkFlatTable 6 2) 1 = [].
Proof.
  assert (Hw : 2 <= flat_width (mkFlatTable 6 2)) by (simpl; lia).
  assert (Hh : 2 <= flat_height (mkFlatTable 6 2)) by (simpl; lia).
  split; [exact (conj Hw Hh)|].
  exact (@medianVarianceCut_thin_image sample (mkFlatTable 6 2) 0
           flat_createStoresSize flat_splitsKeepOtherSide Hw Hh
           (or_intror eq_refl)).
Defined.

(** X5 on the flat 8 by 5 image with budget 2: the pixel [(0, 0)] is in no
    returned region and in one child left aside, the pixel [(1, 3)] in one
    returned region and in no child left aside. *)
Lemma medianVarianceCut_pixel_accounting_witness :
  (coverCount 0 0 (flat_medianVarianceCut (mkFlatTable 8 5) 2)
   + coverCount 0 0 (@dropped sample (@wholeImage sample (mkFlatTable 8 5)) 2)
   = 1)%nat
  /\ (coverCount 1 3 (flat_medianVarianceCut (mkFlatTable 8 5) 2)
      + coverCount 1 3 (@dropped sample (@wholeImage sample (mkFlatTable 8 5)) 2)
      = 1)%nat.
Proof.
  split.
  - exact (@medianVarianceCut_pixel_accounting sample (mkFlatTable 8 5) 2 0 0
             flat_splitsTile).
  - exact (@medianVarianceCut_pixel_accounting sample (mkFlatTable 8 5) 2 1 3
             flat_splitsTile).
Defined.

Example dropped_flat85 :
  map (fun r => (_x r, _y r, _w r, _h r))
    (@dropped sample (@wholeImage sample (mkFlatTable 8 5)) 2)
  = [(0, 0, 4, 2); (4, 0, 4, 2)].
Proof.
  vm_compute. reflexivity.
Qed.

(** X6 on the same image, at a pixel of the image and at one outside it. *)
Lemma medianVarianceCut_no_overlap_witness :
  (coverCount 1 3 (flat_medianVarianceCut (mkFlatTable 8 5) 2) <= 1)%nat
  /\ coverCount 8 3 (flat_medianVarianceCut (mkFlatTable 8 5) 2) = 0%nat.
Proof.
  split.
  - exact (proj1 (@medianVarianceCut_no_overlap sample (mkFlatTable 8 5) 2 1 3
                    flat_splitsTile)).
  - exact (proj2 (@medianVarianceCut_no_overlap sample (mkFlatTable 8 5) 2 8 3
                    flat_splitsTile) eq_refl).
Defined.

(** X7 on the flat 8 by 8 image with budget 1, where no child is left
    aside. *)
Lemma medianVarianceCut_exact_partition_witness :
  @dropped sample (@wholeImage sample (mkFlatTable 8 8)) 1 = []
  /\ coverCount 3 6 (flat_medianVarianceCut (mkFlatTable 8 8) 1) = 1%nat.
Proof.
  assert (Hd : @dropped sample (@wholeImage sample (mkFlatTable 8 8)) 1 = [])
    by reflexivity.
  split; [exact Hd|].
  exact (@medianVarianceCut_exact_partition sample (mkFlatTable 8 8) 1 3 6
           flat_splitsTile Hd eq_refl).
Defined.

(** X8 on the two regions of the flat 8 by 8 image, at position 1. *)
Lemma printVariance_blocks_witness :
  nth_error (flat_medianVarianceCut (mkFlatTable 8 8) 1) 1
  = Some (flat_create 0 4 8 4 (mkFlatTable 8 8))
  /\ nth_error
       (@printVariance sample (flat_medianVarianceCut (mkFlatTable 8 8) 1)) 2
     = Some (Printf "region %d %d %d : %d %d\n"
               [PfInt 1; PfInt 0; PfInt 4; PfInt 8; PfInt 4]).
Proof.
  assert (H : nth_error (flat_medianVarianceCut (mkFlatTable 8 8) 1) 1
              = Some (flat_create 0 4 8 4 (mkFlatTable 8 8))) by reflexivity.
  split; [exact H|].
  exact (proj1 (proj2 (@printVariance_blocks sample _ 1 _ H))).
Defined.

(** X10 on two lights of the lower half. *)
Lemma outputJSON_all_culled_witness :
  Forall (fun l => culled l = true) [lightDown; lightDown]
  /\ sample_outputJSON [lightDown; lightDown] 8 8 64 64 0
     = [Os_str "["; Os_str "]"].
Proof.
  assert (H : Forall (fun l => culled l = true) [lightDown; lightDown])
    by (repeat constructor).
  split; [exact H|].
  exact (@outputJSON_all_culled sample [lightDown; lightDown] 8 8 64 64%float 0
           H).
Defined.

(** X12 on a light that passes and a culled one with [numLights = 0]: the
    cap is 2, one record is written, and the array ends with a comma. *)
Lemma outputJSON_commas_witness :
  countRecords (sample_outputJSON [lightUp; lightDown] 8 8 64 64 0) = 1%nat
  /\ countCommas (sample_outputJSON [lightUp; lightDown] 8 8 64 64 0) = 1%nat
  /\ exists pre,
       sample_outputJSON [lightUp; lightDown] 8 8 64 64 0
       = pre ++ [Os_endl; Os_str ","; Os_str "]"].
Proof.
  pose proof (@outputJSON_commas sample [lightUp; lightDown] 8 8 64 64%float 0)
    as T.
  cbv zeta in T.
  assert (Hcap : (if 0 >? 0 then 0
                  else Z.of_nat (List.length [lightUp; lightDown])) < 2 ^ 64)
    by reflexivity.
  assert (Hk : countRecords (sample_outputJSON [lightUp; lightDown] 8 8 64 64 0)
               = 1%nat) by (vm_compute; reflexivity).
  destruct (T Hcap) as [_ T2].
  assert (Hlt : Z.of_nat
                  (countRecords
                     (@outputJSON sample [lightUp; lightDown] 8 8 64 64%float 0))
                < (if 0 >? 0 then 0
                   else Z.of_nat (List.length [lightUp; lightDown])))
    by (vm_compute; reflexivity).
  destruct (T2 Hlt) as [Hc Hend].
  split; [exact Hk|]. split.
  - unfold sample_outputJSON. rewrite Hc. exact Hk.
  - apply Hend. unfold sample_outputJSON in Hk. rewrite Hk. lia.
Defined.

(** X13 on [-m 3 -m 5 -n 2]: the light count is 5. *)
Lemma parseOptions_last_wins_witness :
  exists o1,
    @parseOptions sample
      [("m"%char, "3"%string); ("m"%char, "5"%string); ("n"%char, "2"%string)]
      defaultOptions = Some o1
    /\ numLights o1 = 5.
Proof.
  destruct (@parseOptions sample
              [("m"%char, "3"%string); ("m"%char, "5"%string);
               ("n"%char, "2"%string)] defaultOptions) as [o1|] eqn:E;
    [|vm_compute in E; discriminate].
  exists o1. split; [reflexivity|].
  assert (Habs : absent "m" [("n"%char, "2"%string)]).
  { intros c a [H|[]]. injection H as <- <-. discriminate. }
  exact (proj1 (proj2 (proj2
           (@parseOptions_last_wins sample [("m"%char, "3"%string)]
              [("n"%char, "2"%string)] "m" "5" defaultOptions o1 E Habs)))
           eq_refl).
Defined.

(** X14 on [extractLights -z sky.exr], where [getopt] reports the option,
    and on the command line without a file. *)
Lemma main_usage_error_witness :
  sample_main cmd_bad_flag
  = mkRun 1 []
      [ Printf "%s: invalid option -- '%c'\n"
          [PfStr "extractLights"; PfStr "z"];
        Os_str "Usage: "; Os_str "extractLights";
        Os_str (" [-a max_light_areas] [-l max_light_length] "
                ++ "[-r ratioLight] [-n numCuts] [-m lightsNum] [-d] "
                ++ "file.hdr");
        Os_endl ]
  /\ sample_main cmd_no_file
     = mkRun 1 []
         [ Os_str "Usage: "; Os_str "extractLights";
           Os_str (" [-a max_light_areas] [-l max_light_length] "
                   ++ "[-r ratioLight] [-n numCuts] [-m lightsNum] [-d] "
                   ++ "file.hdr");
           Os_endl ].
Proof.
  split.
  - apply (proj1 (@main_usage_error sample cmd_bad_flag)).
    exists "?"%char, EmptyString. split; [now left | reflexivity].
  - apply (proj2 (@main_usage_error sample cmd_no_file)).
    + intros c a [].
    + simpl. lia.
Defined.

(** X15 on [extractLights -n 1 missing.exr]: the line on the standard error
    names [-n]. *)
Lemma main_decode_failure_witness :
  nth_error (argv cmd_missing_n1) (optind cmd_missing_n1)
  = Some "missing.exr"%string
  /\ sample_main cmd_missing_n1
     = mkRun 1 [Printf "%s" [PfStr "Cannot read file."]]
         [ Os_str "Cannot open "; Os_str "-n"; Os_str " image file"; Os_endl ].
Proof.
  assert (Hk : forall c optarg,
             In (c, optarg) (getopt_results cmd_missing_n1) ->
             knownFlag c = true).
  { intros c a [H|[]]. injection H as <- <-. reflexivity. }
  split; [reflexivity|].
  exact (@main_decode_failure sample cmd_missing_n1 "missing.exr"
           "Cannot read file." Hk eq_refl eq_refl).
Defined.

(** X16 on the 2 by 2 image. *)
Lemma main_empty_partition_witness :
  @emptyPartition sample cmd_small
  /\ sample_main cmd_small
     = mkRun 1 []
         [ Os_str "Cannot cut "; Os_str "small.exr";
           Os_str " into light regions"; Os_endl ].
Proof.
  assert (H : @emptyPartition sample cmd_small).
  { exists defaultOptions, "small.exr"%string, (flatPixels 2 2), 2, 2.
    refine (conj eq_refl (conj eq_refl (conj eq_refl _))).
    vm_compute. reflexivity. }
  split; [exact H|].
  exact (@main_empty_partition sample cmd_small H).
Defined.

(** X18 on [extractLights -n 1 sky.exr]: two regions, within [2^1]. *)
Lemma main_region_budget_witness :
  exit_code (sample_main cmd_exr_n1) = 0
  /\ exists o regions rest,
       @parseOptions sample (getopt_results cmd_exr_n1) defaultOptions = Some o
       /\ stdout (sample_main cmd_exr_n1)
          = @printVariance sample regions ++ Os_str "[" :: rest
       /\ (List.length regions <= 2 ^ Z.to_nat (to_uint (numCuts o)))%nat.
Proof.
  assert (H0 : exit_code (sample_main cmd_exr_n1) = 0) by reflexivity.
  split; [exact H0|].
  destruct (@main_region_budget sample cmd_exr_n1 H0)
    as (o & regions & rest & Ho & Hout & Hlen & _).
  exists o, regions, rest. auto.
Defined.

(** X19 on the square 8 by 8 region with budget 1. *)
Lemma splitRecursive_children_in_order_witness :
  (2 <= _w square88 /\ 2 <= _h square88)
  /\ flat_splitRecursive square88 1 []
     = flat_splitRecursive (flat_create 0 0 8 4 (mkFlatTable 8 8)) 0 []
       ++ flat_splitRecursive (flat_create 0 4 8 4 (mkFlatTable 8 8)) 0 [].
Proof.
  assert (Hw : 2 <= _w square88) by (simpl; lia).
  assert (Hh : 2 <= _h square88) by (simpl; lia).
  split; [exact (conj Hw Hh)|].
  exact (@splitRecursive_children_in_order sample square88 0 Hw Hh).
Defined.

(** C9 on the run [extractLights -n 1 sky.exr], which ends with exit code
    0: the partition has two regions, the second is dumped with index 1 at
    position 2, and the array opens at position 4. *)
Lemma main_dumps_regions_first_witness :
  exit_code (sample_main cmd_exr_n1) = 0
  /\ nth_error (stdout (sample_main cmd_exr_n1)) 2
     = Some (Printf "region %d %d %d : %d %d\n"
               [PfInt 1; PfInt 0; PfInt 4; PfInt 8; PfInt 4])
  /\ nth_error (stdout (sample_main cmd_exr_n1)) 4 = Some (Os_str "[")
  /\ forall lights height width imageAreaSize luminanceSum numLights,
       stdout (sample_main cmd_exr_n1)
       <> sample_outputJSON lights height width imageAreaSize luminanceSum
            numLights.
Proof.
  assert (H0 : exit_code (sample_main cmd_exr_n1) = 0) by reflexivity.
  destruct (@main_dumps_regions_first sample cmd_exr_n1 H0)
    as [(o & file & data & w & h & Ho & Hf & Hl & Hrest) Hne].
  vm_compute in Ho. injection Ho as <-.
  simpl in Hf. injection Hf as <-.
  vm_compute in Hl. injection Hl as <- <- <-.
  cbv zeta in Hrest. destruct Hrest as (_ & Hblocks & Hbracket & _).
  refine (conj H0 (conj _ (conj _ Hne))).
  - exact (proj1 (Hblocks 1%nat (flat_create 0 4 8 4 (mkFlatTable 8 8))
                    eq_refl)).
  - exact Hbracket.
Defined.

(** C10 with [numLights = 0] on three lights, one of them culled: two
    records, among them the one of the third light; with a cap of 2 on four
    lights, three of which pass: two records; and on a run without [-m]. *)
Lemma outputJSON_cap_witness :
  countRecords
    (sample_outputJSON [lightUp; lightDown; lightAt 0.75 0.25] 8 8 64 64 0)
  = 2%nat
  /\ (exists pre post,
        sample_outputJSON [lightUp; lightDown; lightAt 0.75 0.25] 8 8 64 64 0
        = pre ++ @jsonRecord sample (lightAt 0.75 0.25) 64 ++ post)
  /\ countRecords
       (sample_outputJSON
          [lightUp; lightDown; lightAt 0.75 0.25; lightAt 0.5 0.125]
          8 8 64 64 2)
     = 2%nat
  /\ (countRecords (stdout (sample_main cmd_exr_n1)) <= 1)%nat.
Proof.
  pose proof (@outputJSON_cap sample) as T. cbv zeta in T.
  destruct T as (T1 & T2 & _ & T4).
  assert (Hz : 0 <= 0) by lia.
  assert (Hp : 0 < 2) by lia.
  refine (conj _ (conj _ (conj _ _))).
  - exact (proj1 (proj2
             (T1 [lightUp; lightDown; lightAt 0.75 0.25] 8 8 64 64%float 0 Hz))).
  - exact (proj2 (proj2
             (T1 [lightUp; lightDown; lightAt 0.75 0.25] 8 8 64 64%float 0 Hz))
             (lightAt 0.75 0.25) (or_intror (or_intror (or_introl eq_refl)))
             eq_refl).
  - exact (proj1 (proj2
             (T2 [lightUp; lightDown; lightAt 0.75 0.25; lightAt 0.5 0.125]
                8 8 64 64%float 2 Hp))).
  - apply (T4 cmd_exr_n1); intros c a [E|[]] Hc;
      injection E as <- <-; discriminate.
Defined.
